(** * Event CRUD of the calendar backend (app/routers/event.py)

    A shallow embedding of the event module: date validation, lookup by
    id, partial update, creation with the owner association, deletion with
    its association rows, and sorting by start date.  Python values that
    reach the module untyped (the values of an update mapping) are
    embedded as [PyVal]; rows of the two tables are records; the
    SQLAlchemy session is an explicit state threaded through every
    operation. *)

From Stdlib Require Import ZArith String List Sorted Permutation.
From stdpp Require Import gmap strings list fin_maps pretty.

Local Open Scope string_scope.
Local Open Scope Z_scope.

(** ** Python values *)

(** [datetime] as the seven fields the standard library compares. *)
Record datetime : Type := mk_datetime {
  year : Z; month : Z; day : Z;
  hour : Z; minute : Z; second : Z; microsecond : Z
}.

#[global] Instance datetime_eq_dec : EqDecision datetime.
Proof. solve_decision. Defined.

Definition astuple (d : datetime) : list Z :=
  [year d; month d; day d; hour d; minute d; second d; microsecond d].

(** Comparison of two tuples of integers, first difference decides. *)
Fixpoint tuple_cmp (a b : list Z) : comparison :=
  match a, b with
  | [], [] => Eq
  | [], _ :: _ => Lt
  | _ :: _, [] => Gt
  | x :: a', y :: b' =>
      match x ?= y with
      | Eq => tuple_cmp a' b'
      | c => c
      end
  end.

(** [datetime._cmp]: compares the field tuples. *)
Definition datetime_cmp (a b : datetime) : comparison :=
  tuple_cmp (astuple a) (astuple b).

(** [datetime.__lt__]. *)
Definition datetime_lt (a b : datetime) : bool :=
  match datetime_cmp a b with Lt => true | _ => false end.

(** The values an update mapping or a [values] dict can carry. *)
Inductive PyVal : Type :=
| VNone
| VInt (n : Z)
| VStr (s : string)
| VDatetime (d : datetime).

#[global] Instance PyVal_eq_dec : EqDecision PyVal.
Proof. solve_decision. Defined.

(** ** Exceptions and outcomes *)

Inductive Exn : Type :=
| TypeError
| KeyError (key : string)
| NameError (name : string)
| AttributeError
| AssertionError
| SQLAlchemyError
| NoResultFound (msg : string)
| MultipleResultsFound (msg : string)
| HTTPException (status_code : Z) (detail : string).

#[global] Instance Exn_eq_dec : EqDecision Exn.
Proof. solve_decision. Defined.

(** [NoResultFound] and [MultipleResultsFound] derive from
    [SQLAlchemyError] (through [InvalidRequestError]). *)
Definition is_SQLAlchemyError (e : Exn) : bool :=
  match e with
  | SQLAlchemyError | NoResultFound _ | MultipleResultsFound _ => true
  | _ => false
  end.

Inductive Outcome (A : Type) : Type :=
| Ok (a : A)
| Raise (e : Exn).
Arguments Ok {A} a.
Arguments Raise {A} e.

#[global] Instance Outcome_eq_dec {A} `{EqDecision A} : EqDecision (Outcome A).
Proof. solve_decision. Defined.

(** Python's [a < b] on the embedded values: same-type operands compare,
    anything else is a [TypeError]. *)
Definition py_lt (a b : PyVal) : Outcome bool :=
  match a, b with
  | VInt x, VInt y => Ok (x <? y)
  | VStr x, VStr y => Ok (String.ltb x y)
  | VDatetime x, VDatetime y => Ok (datetime_lt x y)
  | _, _ => Raise TypeError
  end.

(** ** Date validation *)

(** [is_date_before]: the bare comparison, nothing caught. *)
Definition is_date_before (start_date end_date : PyVal) : Outcome bool :=
  py_lt start_date end_date.

(** [check_date_validation]: the comparison under [try], with
    [except TypeError: return False]. *)
Definition check_date_validation (start_time end_time : PyVal) : Outcome bool :=
  match py_lt start_time end_time with
  | Ok b => Ok b
  | Raise TypeError => Ok false
  | Raise e => Raise e
  end.

(** ** Rows and tables *)

Module Event.
Record t : Type := mk {
  id : Z;
  title : string;
  start : datetime;
  end_ : datetime;
  content : option string;
  location : option string;
  owner_id : Z
}.
End Event.

Module UserEvent.
Record t : Type := mk {
  user_id : Z;
  event_id : Z
}.
End UserEvent.

Module User.
Record t : Type := mk {
  id : Z;
  email : string
}.
End User.

#[global] Instance Event_eq_dec : EqDecision Event.t.
Proof. solve_decision. Defined.
#[global] Instance UserEvent_eq_dec : EqDecision UserEvent.t.
Proof. solve_decision. Defined.

Record Tables : Type := mk_Tables {
  events : list Event.t;
  user_events : list UserEvent.t;
  users : list User.t
}.

Definition with_events (rows : list Event.t) (t : Tables) : Tables :=
  mk_Tables rows (user_events t) (users t).

Definition with_user_events (rows : list UserEvent.t) (t : Tables) : Tables :=
  mk_Tables (events t) rows (users t).

(** ** The session

    The source reaches the database only through a SQLAlchemy [Session].
    The model keeps what the operations can observe of it: the tables as
    last committed, the tables as the open transaction sees them, the
    instances marked by [Session.delete] and not yet flushed, the
    [autoflush] setting (configured outside this module), the records
    written through [logger], and a plan of simulated store failures: each
    interaction with the store (a flush that has work to do, a bulk
    statement, a commit) takes the next entry of [faults], and [true]
    makes that interaction raise [SQLAlchemyError]. *)

Inductive LogRecord : Type :=
| Critical (msg : string)
| Exception (e : Exn).

Record Session : Type := mk_Session {
  committed : Tables;
  txn : Tables;
  deleted : list Event.t;
  autoflush : bool;
  faults : list bool;
  log : list LogRecord
}.

Definition set_txn (t : Tables) (db : Session) : Session :=
  mk_Session (committed db) t (deleted db) (autoflush db) (faults db) (log db).

Definition set_deleted (l : list Event.t) (db : Session) : Session :=
  mk_Session (committed db) (txn db) l (autoflush db) (faults db) (log db).

Definition set_faults (fs : list bool) (db : Session) : Session :=
  mk_Session (committed db) (txn db) (deleted db) (autoflush db) fs (log db).

Definition add_log (r : LogRecord) (db : Session) : Session :=
  mk_Session (committed db) (txn db) (deleted db) (autoflush db) (faults db)
    (log db ++ [r]).

(** A session as a request receives it: nothing pending, the transaction
    sees the committed tables. *)
Definition open_session (t : Tables) (af : bool) (fs : list bool) : Session :=
  mk_Session t t [] af fs [].

(** Stateful, fallible computations over the session. *)
Definition M (A : Type) : Type := Session → Outcome A * Session.

Definition ret {A} (a : A) : M A := λ db, (Ok a, db).

Definition bind {A B} (m : M A) (k : A → M B) : M B :=
  λ db, match m db with
        | (Ok a, db') => k a db'
        | (Raise e, db') => (Raise e, db')
        end.

Notation "'let*' x ':=' m 'in' k" := (bind m (λ x, k))
  (at level 10, x name, m at level 100, k at level 200).

Definition next_fault : M bool :=
  λ db, match faults db with
        | [] => (Ok false, db)
        | f :: fs => (Ok f, set_faults fs db)
        end.

(** [Session.rollback]: the transaction's changes and the pending marks
    are dropped. *)
Definition rollback (db : Session) : Session :=
  set_deleted [] (set_txn (committed db) db).

(** A failed interaction that invalidates the transaction. *)
Definition fail_rolled_back {A} : M A :=
  λ db, (Raise SQLAlchemyError, rollback db).

(** The rows left once the DELETEs of the marked instances (by primary
    key) have run. *)
Definition without_events (gone rows : list Event.t) : list Event.t :=
  filter (λ e, Event.id e ∉ Event.id <$> gone) rows.

(** The tables as they stand once the pending marks are flushed. *)
Definition flushed (db : Session) : Tables :=
  with_events (without_events (deleted db) (events (txn db))) (txn db).

(** [Session.flush]: emits the DELETE of every marked instance; a failure
    rolls the transaction back. *)
Definition flush : M unit :=
  λ db, match deleted db with
        | [] => (Ok tt, db)
        | _ :: _ =>
            (let* fails := next_fault in
             if (fails : bool) then fail_rolled_back
             else λ db, (Ok tt, set_deleted [] (set_txn (flushed db) db))) db
        end.

(** What a bulk statement does first. *)
Definition autoflush_ : M unit :=
  λ db, if autoflush db then flush db else (Ok tt, db).

(** [db.delete(event)]: marks the instance; the DELETE waits for the next
    flush. *)
Definition session_delete (event : Event.t) : M unit :=
  λ db, (Ok tt, set_deleted (event :: deleted db) db).

(** [db.query(UserEvent).filter_by(event_id=event_id).delete()]. *)
Definition query_UserEvent_delete (event_id : Z) : M unit :=
  let* _ := autoflush_ in
  let* fails := next_fault in
  if (fails : bool) then λ db, (Raise SQLAlchemyError, db)
  else λ db,
    (Ok tt,
     set_txn (with_user_events
                (filter (λ ue, UserEvent.event_id ue ≠ event_id)
                        (user_events (txn db)))
                (txn db)) db).

(** [db.commit()]: flushes, then makes the transaction durable; a failure
    of either leaves the committed tables as they were. *)
Definition commit : M unit :=
  let* _ := flush in
  let* fails := next_fault in
  if (fails : bool) then fail_rolled_back
  else λ db,
    (Ok tt,
     mk_Session (txn db) (txn db) (deleted db) (autoflush db) (faults db)
       (log db)).

(** ** The schema *)

(** Modelled from the spec: the table declarations (app/database/models.py)
    are not in src.  Section 3 of the spec gives the Event columns: title
    (text), start and end (timestamps), content and location (optional
    text), owner_id (a reference to a user); a value of another type, or
    None where the column is not optional, is refused by the store. *)
Definition as_text (v : PyVal) : option string :=
  match v with VStr s => Some s | _ => None end.

Definition as_optional_text (v : PyVal) : option (option string) :=
  match v with VStr s => Some (Some s) | VNone => Some None | _ => None end.

Definition as_timestamp (v : PyVal) : option datetime :=
  match v with VDatetime d => Some d | _ => None end.

Definition as_integer (v : PyVal) : option Z :=
  match v with VInt n => Some n | _ => None end.

Definition Event_columns : list string :=
  ["id"; "title"; "start"; "end"; "content"; "location"; "owner_id"].

(** One SET clause of an UPDATE on the events table. *)
Definition set_column (col : string) (v : PyVal) : option (Event.t → Event.t) :=
  if decide (col = "id") then
    n ← as_integer v;
    Some (λ e, Event.mk n (Event.title e) (Event.start e) (Event.end_ e)
                 (Event.content e) (Event.location e) (Event.owner_id e))
  else if decide (col = "title") then
    s ← as_text v;
    Some (λ e, Event.mk (Event.id e) s (Event.start e) (Event.end_ e)
                 (Event.content e) (Event.location e) (Event.owner_id e))
  else if decide (col = "start") then
    d ← as_timestamp v;
    Some (λ e, Event.mk (Event.id e) (Event.title e) d (Event.end_ e)
                 (Event.content e) (Event.location e) (Event.owner_id e))
  else if decide (col = "end") then
    d ← as_timestamp v;
    Some (λ e, Event.mk (Event.id e) (Event.title e) (Event.start e) d
                 (Event.content e) (Event.location e) (Event.owner_id e))
  else if decide (col = "content") then
    s ← as_optional_text v;
    Some (λ e, Event.mk (Event.id e) (Event.title e) (Event.start e)
                 (Event.end_ e) s (Event.location e) (Event.owner_id e))
  else if decide (col = "location") then
    s ← as_optional_text v;
    Some (λ e, Event.mk (Event.id e) (Event.title e) (Event.start e)
                 (Event.end_ e) (Event.content e) s (Event.owner_id e))
  else if decide (col = "owner_id") then
    n ← as_integer v;
    Some (λ e, Event.mk (Event.id e) (Event.title e) (Event.start e)
                 (Event.end_ e) (Event.content e) (Event.location e) n)
  else None.

(** The SET clauses of a whole mapping, over the columns in a fixed
    order; a key that is no column, or one refused value, refuses the
    statement. *)
Definition set_clauses (values : gmap string PyVal) (cols : list string) : option (Event.t → Event.t) :=
  foldr (λ (col : string) (acc : option (Event.t → Event.t)),
           match values !! col with
           | None => acc
           | Some v =>
               match set_column col v, acc with
               | Some f, Some g => Some (λ e, g (f e))
               | _, _ => None
               end
           end)
        (Some (λ e, e)) cols.

Definition assignments (values : gmap string PyVal) : option (Event.t → Event.t) :=
  if bool_decide (map_Forall (λ k _, k ∈ Event_columns) values) then
    set_clauses values Event_columns
  else None.

(** [db.query(Event).filter(Event.id == event_id).update(values,
    synchronize_session=False)]: one statement, all its SET clauses or
    none. *)
Definition query_Event_update (event_id : Z) (values : gmap string PyVal) : M unit :=
  let* _ := autoflush_ in
  match assignments values with
  | None => λ db, (Raise SQLAlchemyError, db)
  | Some f =>
      let* fails := next_fault in
      if (fails : bool) then λ db, (Raise SQLAlchemyError, db)
      else λ db,
        (Ok tt,
         set_txn (with_events
                    ((λ e, if decide (Event.id e = event_id) then f e else e)
                       <$> events (txn db))
                    (txn db)) db)
  end.

(** The id the store gives the next row of the events table. *)
Definition next_id (rows : list Event.t) : Z :=
  1 + foldr Z.max 0 (Event.id <$> rows).

(** Modelled from the spec: [create_model] (app/internal/utils.py) is not
    in src.  Section 4.1 of the spec has the creation path insert one
    Event row and one UserEvent row and return the created Event, whose
    id is generated; it gives the insertion no failure of the store's own,
    so [save] takes nothing from [faults].  The row is added, the pending
    marks are flushed and the transaction is made durable. *)
Definition save (insert : Tables → Tables) : M unit :=
  λ db, let t := insert (flushed db) in
        (Ok tt, mk_Session t t [] (autoflush db) (faults db) (log db)).

(** The keywords [create_event] passes. *)
Definition Event_kwargs : list string :=
  ["title"; "start"; "end"; "content"; "owner_id"; "location"].

(** The primary key of the row to insert: the integer given under
    ['id'], unless a stored row has it already, which the store refuses;
    the generated one when the keyword is absent or None. *)
Definition primary_key (kw : gmap string PyVal) (rows : list Event.t) : option Z :=
  match kw !! "id" with
  | None | Some VNone => Some (next_id rows)
  | Some (VInt n) =>
      if decide (n ∈ Event.id <$> rows) then None else Some n
  | Some _ => None
  end.

(** The row built from keyword arguments: the four required columns must
    be there with their types, the two optional ones default to None. *)
Definition new_Event (kw : gmap string PyVal) (id : Z) : option Event.t :=
  title ← kw !! "title" ≫= as_text;
  start ← kw !! "start" ≫= as_timestamp;
  end_ ← kw !! "end" ≫= as_timestamp;
  content ← as_optional_text (default VNone (kw !! "content"));
  location ← as_optional_text (default VNone (kw !! "location"));
  owner_id ← kw !! "owner_id" ≫= as_integer;
  Some (Event.mk id title start end_ content location owner_id).

(** Modelled from the spec: [create_model(db, Event, **kw)].  A keyword
    that is no attribute of the model, that is no column of the table,
    makes the constructor raise [TypeError] (the case [add_new_event]
    catches); a row the schema refuses is a store error and nothing is
    inserted. *)
Definition create_model_Event (kw : gmap string PyVal) : M Event.t :=
  if bool_decide (map_Forall (λ k _, k ∈ Event_columns) kw) then
    λ db,
      match primary_key kw (events (txn db)) ≫= new_Event kw with
      | None => fail_rolled_back db
      | Some e =>
          (let* _ := save (λ t, with_events (events t ++ [e]) t) in ret e) db
      end
  else λ db, (Raise TypeError, db).

(** Modelled from the spec: [create_model(db, UserEvent, user_id=...,
    event_id=...)]. *)
Definition create_model_UserEvent (user_id : PyVal) (event_id : Z) : M UserEvent.t :=
  match as_integer user_id with
  | None => fail_rolled_back
  | Some u =>
      let ue := UserEvent.mk u event_id in
      let* _ := save (λ t, with_user_events (user_events t ++ [ue]) t) in
      ret ue
  end.

(** ** The operations of app/routers/event.py *)

Definition lift {A} (o : Outcome A) : M A := λ db, (o, db).

Definition raise {A} (e : Exn) : M A := λ db, (Raise e, db).

(** [try: body / except <handles>: handler]. *)
Definition try_except {A} (body : M A) (handles : Exn → bool) (handler : Exn → M A) : M A :=
  λ db, match body db with
        | (Ok a, db') => (Ok a, db')
        | (Raise e, db') => if handles e then handler e db' else (Raise e, db')
        end.

Definition logger_critical (msg : string) : M unit :=
  λ db, (Ok tt, add_log (Critical msg) db).

Definition logger_exception (e : Exn) : M unit :=
  λ db, (Ok tt, add_log (Exception e) db).

(** The instances a query yields for the rows it fetched: the session
    keeps one instance per primary key, built from the first row that
    carries the key, and the query gives each instance once. *)
Fixpoint identities (rows : list Event.t) : list Event.t :=
  match rows with
  | [] => []
  | e :: rows' =>
      e :: filter (λ x, Event.id x ≠ Event.id e) (identities rows')
  end.

(** [get_event_by_id]: [Query.one] over the instances of the rows with
    the id, as the transaction sees them.  The [isinstance(db, Session)]
    guard has no counterpart: [db] is a [Session] by its type. *)
Definition get_event_by_id (event_id : Z) : M Event.t :=
  λ db,
    match identities
            (filter (λ e, Event.id e = event_id) (events (txn db))) with
    | [] =>
        (Raise (NoResultFound
                  ("Event ID does not exist. ID: " +:+ pretty event_id)), db)
    | [event] => (Ok event, db)
    | _ :: _ :: _ =>
        let error_message :=
          "Multiple results found when getting event. Expected only one. "
          +:+ "ID: " +:+ pretty event_id in
        (let* _ := logger_critical error_message in
         raise (MultipleResultsFound error_message)) db
    end.

(** [is_it_possible_to_change_dates]: each bound from the mapping, or
    from the stored event when the mapping has none. *)
Definition is_it_possible_to_change_dates (old_event : Event.t) (event : gmap string PyVal) : Outcome bool :=
  is_date_before
    (default (VDatetime (Event.start old_event)) (event !! "start"))
    (default (VDatetime (Event.end_ old_event)) (event !! "end")).

Definition updatable : list string :=
  ["title"; "start"; "end"; "content"; "location"].

(** [get_items_that_can_be_updated]: the comprehension over the five
    keys. *)
Definition get_items_that_can_be_updated (event : gmap string PyVal) : gmap string PyVal :=
  foldl (λ acc i, match event !! i with
                  | Some v => <[i := v]> acc
                  | None => acc
                  end)
        ∅ updatable.

(** The lookup with which [update_event] and the first [delete_event]
    start: the two lookup errors become HTTP errors. *)
Definition get_event_or_http_error (event_id : Z) : M Event.t :=
  λ db,
    match get_event_by_id event_id db with
    | (Raise (NoResultFound _), db') =>
        (Raise (HTTPException 404 "Event not found"), db')
    | (Raise (MultipleResultsFound _), db') =>
        (Raise (HTTPException 500 "Multiple events found"), db')
    | r => r
    end.

(** [update_event].  The body of the second [try] yields [Some r] when it
    returns [r] from inside the block and [None] when control falls out
    of it. *)
Definition update_event (event_id : Z) (event : gmap string PyVal) : M (option Event.t) :=
  let event_to_update := get_items_that_can_be_updated event in
  if bool_decide (event_to_update = ∅) then ret None
  else
    let* old_event := get_event_or_http_error event_id in
    let* returned :=
      try_except
        (let* possible :=
           lift (is_it_possible_to_change_dates old_event event_to_update) in
         if negb possible then ret (Some None)
         else
           let* _ := query_Event_update event_id event_to_update in
           let* _ := commit in
           ret None)
        (λ e, match e with
              | AttributeError | TypeError => true
              | _ => is_SQLAlchemyError e
              end)
        (λ _, ret (Some None)) in
    match returned with
    | Some r => ret r
    | None => let* e := get_event_by_id event_id in ret (Some e)
    end.

(** [create_event]: the two rows, one [create_model] each. *)
Definition create_event (title start end_ owner_id content location : PyVal) : M Event.t :=
  let* event :=
    create_model_Event
      (<["title" := title]> (<["start" := start]> (<["end" := end_]>
        (<["content" := content]> (<["owner_id" := owner_id]>
          (<["location" := location]> ∅)))))) in
  let* _ := create_model_UserEvent owner_id (Event.id event) in
  ret event.

(** [get_participants_emails_by_event]: the join of the three tables. *)
Definition get_participants_emails_by_event (event_id : Z) (db : Session) : list string :=
  e ← events (txn db);
  ue ← user_events (txn db);
  u ← users (txn db);
  if decide (UserEvent.event_id ue = Event.id e
             ∧ User.id u = UserEvent.user_id ue
             ∧ Event.id e = event_id)
  then [User.email u] else [].

Inductive Response : Type :=
| TemplateResponse (name : string) (event_id : Z) (status_code : Z)
| RedirectResponse (url : string) (status_code : Z).

(** The three statements both handlers run under [try], and what they do
    with the result.  The test on [participants] and [event.start] that
    follows guards only [pass]. *)
Definition delete_rows (event : Event.t) (event_id : Z) : M Response :=
  try_except
    (let* _ := session_delete event in
     let* _ := query_UserEvent_delete event_id in
     let* _ := commit in
     ret (RedirectResponse "/calendar" 200))
    (λ e, match e with TypeError => true | _ => is_SQLAlchemyError e end)
    (λ _, ret (TemplateResponse "event/eventview.html" event_id 500)).

(** [delete_event], lines 80-107: the handler registered first for
    DELETE /event/{event_id}, hence the one the router dispatches to. *)
Definition delete_event (event_id : Z) : M Response :=
  let* event := get_event_or_http_error event_id in
  let participants := get_participants_emails_by_event event_id in
  delete_rows event event_id.

(** [by_id] is bound nowhere in the module: evaluating the name raises
    [NameError]. *)
Definition by_id (event_id : Z) : M Event.t := raise (NameError "by_id").

(** [delete_event], lines 218-244: the second definition, which rebinds
    the module-level name. *)
Definition delete_event_redefined (event_id : Z) : M Response :=
  let* event := by_id event_id in
  let participants := get_participants_emails_by_event event_id in
  delete_rows event event_id.

(** [values[key]]. *)
Definition getitem (values : gmap string PyVal) (key : string) : Outcome PyVal :=
  match values !! key with
  | Some v => Ok v
  | None => Raise (KeyError key)
  end.

(** [add_new_event]. *)
Definition add_new_event (values : gmap string PyVal) : M (option Event.t) :=
  let* start := lift (getitem values "start") in
  let* end_ := lift (getitem values "end") in
  let* valid := lift (check_date_validation start end_) in
  if negb valid then ret None
  else
    try_except
      (let* new_event := create_model_Event values in
       let* owner_id := lift (getitem values "owner_id") in
       let* _ := create_model_UserEvent owner_id (Event.id new_event) in
       ret (Some new_event))
      (λ e, match e with
            | AssertionError | AttributeError | TypeError => true
            | _ => false
            end)
      (λ e, let* _ := logger_exception e in ret None).

(** ** Sorting *)

(** [sorted(l, key=...)] on datetime keys: a stable sort that compares
    keys with [<] only. *)
Fixpoint insert_by {A} (key : A → datetime) (x : A) (l : list A) : list A :=
  match l with
  | [] => [x]
  | y :: l' =>
      if datetime_lt (key y) (key x) then y :: insert_by key x l'
      else x :: y :: l'
  end.

Definition sorted {A} (key : A → datetime) (l : list A) : list A :=
  foldr (insert_by key) [] l.

(** List objects live in a heap, so that a call can be asked what it did
    to the list it was given. *)
Abbreviation Heap := (gmap nat (list Event.t)).

Definition alloc (items : list Event.t) (h : Heap) : nat * Heap :=
  let l := fresh (dom h) in (l, <[l := items]> h).

(** [sort_by_date]: [events.copy()] is a new list, [sorted] another. *)
Definition sort_by_date (events : nat) (h : Heap) : option (nat * Heap) :=
  items ← h !! events;
  let '(temp, h1) := alloc items h in
  copied ← h1 !! temp;
  Some (alloc (sorted Event.start copied) h1).

(** ** Vocabulary of the statements *)

(** The ids the INTEGER column of the store can hold, and a query can
    bind: the signed 64-bit integers.  Another integer fails to bind
    before the query runs, with an error of the driver that no handler
    catches; the statements that list the outcomes of a lookup are about
    the ids that bind. *)
Definition representable (n : Z) : Prop := - 2 ^ 63 ≤ n < 2 ^ 63.

(** Earlier-than on field tuples, as one would define it on paper: the
    first field that differs is smaller. *)
Inductive tuple_lt : list Z → list Z → Prop :=
| tuple_lt_nil y ys : tuple_lt [] (y :: ys)
| tuple_lt_head x y xs ys : x < y → tuple_lt (x :: xs) (y :: ys)
| tuple_lt_tail x xs ys : tuple_lt xs ys → tuple_lt (x :: xs) (x :: ys).

Definition earlier (a b : datetime) : Prop := tuple_lt (astuple a) (astuple b).

(** [a]'s key is no later than [b]'s: [b]'s is not strictly less. *)
Definition key_le {A} (key : A → datetime) (a b : A) : Prop :=
  datetime_lt (key b) (key a) = false.

(** [a] starts no later than [b]. *)
Definition start_le : Event.t → Event.t → Prop := key_le Event.start.

(** An optional text argument as the caller passes it. *)
Definition optional (o : option string) : PyVal :=
  match o with Some s => VStr s | None => VNone end.

(** The association row of an event's owner. *)
Definition owner_row (e : Event.t) : UserEvent.t :=
  UserEvent.mk (Event.owner_id e) (Event.id e).

(** Every event has the association row of its owner. *)
Definition every_event_owned (t : Tables) : Prop :=
  ∀ e, e ∈ events t → owner_row e ∈ user_events t.

(** The tables with the event [event_id] and its association rows gone. *)
Definition event_removed (event_id : Z) (t : Tables) : Tables :=
  mk_Tables (filter (λ e, Event.id e ≠ event_id) (events t))
            (filter (λ ue, UserEvent.event_id ue ≠ event_id) (user_events t))
            (users t).

(** The calls a client of the module can make. *)
Inductive Call : Type :=
| CreateEvent (title start end_ owner_id content location : PyVal)
| AddNewEvent (values : gmap string PyVal)
| UpdateEvent (event_id : Z) (event : gmap string PyVal)
| DeleteEvent (event_id : Z)
| DeleteEventRedefined (event_id : Z).

(** The session a call leaves behind, whatever it returned or raised. *)
Definition run (c : Call) (db : Session) : Session :=
  match c with
  | CreateEvent title start end_ owner_id content location =>
      (create_event title start end_ owner_id content location db).2
  | AddNewEvent values => (add_new_event values db).2
  | UpdateEvent event_id event => (update_event event_id event db).2
  | DeleteEvent event_id => (delete_event event_id db).2
  | DeleteEventRedefined event_id => (delete_event_redefined event_id db).2
  end.

(** One step of the system: a call, a change of the failures the store
    is going to simulate, an explicit rollback, or the session being
    closed and a new one opened on the committed tables. *)
Inductive step : Session → Session → Prop :=
| step_call c db : step db (run c db)
| step_faults fs db : step db (set_faults fs db)
| step_rollback db : step db (rollback db)
| step_reopen af fs db : step db (open_session (committed db) af fs).

(** The sessions reachable from an empty pair of tables. *)
Inductive reachable : Session → Prop :=
| reachable_init us af fs : reachable (open_session (mk_Tables [] [] us) af fs)
| reachable_step db db' : reachable db → step db db' → reachable db'.

(** The statement and the commit of [update_event]. *)
Definition persist_update (event_id : Z) (values : gmap string PyVal) : M unit :=
  let* _ := query_Event_update event_id values in commit.

(** The events table once the statement of [update_event] has run and
    the pending marks are flushed. *)
Definition updated_events (event_id : Z) (f : Event.t → Event.t) (db : Session) : list Event.t :=
  (λ e, if decide (Event.id e = event_id) then f e else e)
    <$> without_events (deleted db) (events (txn db)).

(** What a failed operation leaves: the committed tables as they were,
    a transaction that sees either them or no more than it saw, and,
    with [autoflush] on, no mark waiting for a flush. *)
Definition not_persisted (db db' : Session) : Prop :=
  committed db' = committed db
  ∧ autoflush db' = autoflush db
  ∧ (autoflush db = true → deleted db' = [])
  ∧ ((txn db' = committed db ∧ deleted db' = [])
     ∨ (user_events (txn db') = user_events (txn db)
        ∧ users (txn db') = users (txn db)
        ∧ events (txn db') ⊆ events (txn db))).

(** The session once a new event and the row of its owner are saved. *)
Definition created (e : Event.t) (db : Session) : Session :=
  let T := mk_Tables (events (flushed db) ++ [e])
                     (user_events (txn db) ++ [owner_row e])
                     (users (txn db)) in
  mk_Session T T [] (autoflush db) (faults db) (log db).

(** What holds of a session between two calls. *)
Definition session_inv (db : Session) : Prop :=
  every_event_owned (committed db)
  ∧ user_events (txn db) = user_events (committed db)
  ∧ events (txn db) ⊆ events (committed db).

(** What each call can have done to the session. *)
Inductive effect (db db' : Session) : Prop :=
| effect_none :
    committed db' = committed db → txn db' = txn db →
    deleted db' = deleted db → autoflush db' = autoflush db → effect db db'
| effect_not_persisted : not_persisted db db' → effect db db'
| effect_created e : db' = created e db → effect db db'
| effect_updated event_id f T :
    (∀ e, Event.id (f e) = Event.id e
          ∧ Event.owner_id (f e) = Event.owner_id e) →
    T = mk_Tables (updated_events event_id f db)
          (user_events (txn db)) (users (txn db)) →
    committed db' = T → txn db' = T →
    deleted db' = [] → autoflush db' = autoflush db → effect db db'.

(** ** A small session to run the operations on *)

Definition nine : datetime := mk_datetime 2024 1 1 9 0 0 0.
Definition ten : datetime := mk_datetime 2024 1 1 10 0 0 0.
Definition eleven : datetime := mk_datetime 2024 1 1 11 0 0 0.

Definition empty_session : Session :=
  open_session (mk_Tables [] [] [User.mk 1 "e@mail.com"]) true [].

Definition standup : Event.t := Event.mk 1 "standup" nine ten None None 1.

(** The session after one event has been created. *)
Definition example_session : Session :=
  run (CreateEvent (VStr "standup") (VDatetime nine) (VDatetime ten) (VInt 1)
         VNone VNone)
      empty_session.

Definition example_heap : Heap :=
  {[ 0%nat := [Event.mk 2 "review" eleven eleven None None 1; standup] ]}.

(** Two rows under one id, as a fixture would plant them. *)
Definition duplicated_session : Session :=
  open_session (mk_Tables [standup; standup] [owner_row standup] []) true [].

(** ** The handlers around the core *)

(** [datetime.date()]: the calendar day of a timestamp. *)
Definition date (d : datetime) : Z * Z * Z := (year d, month d, day d).

(** The page [eventview] renders: the template and what its context
    holds beside the request. *)
Record EventPage : Type := mk_EventPage {
  template : string;
  page_event : Event.t;
  start_format : string;
  end_format : string
}.

(** [eventview], GET /event/{event_id}. *)
Definition eventview (event_id : Z) : M EventPage :=
  let* event := get_event_or_http_error event_id in
  let start_format := "%A, %d/%m/%Y %H:%M" in
  let end_format :=
    if decide (date (Event.start event) = date (Event.end_ event))
    then "%H:%M" else start_format in
  ret (mk_EventPage "event/eventview.html" event start_format end_format).

(** [data[key]] on the submitted form. *)
Definition form_get (data : gmap string string) (key : string) : Outcome string :=
  match data !! key with
  | Some v => Ok v
  | None => Raise (KeyError key)
  end.

(** [session.query(User).filter_by(id=id).first()]. *)
Definition first_user (id : Z) (db : Session) : option User.t :=
  head (filter (λ u, User.id u = id) (users (txn db))).

(** [create_new_event], POST /event/edit.  Three things it calls are
    defined outside the module and stay parameters: [datetime.strptime],
    [create_user] (app/routers/user.py) and [validate_zoom_link]
    (app/internal/event.py).  [router.url_path_for('eventview', ...)] is
    the path of [eventview] under the router's prefix. *)
Definition create_new_event
    (strptime : string → string → Outcome datetime)
    (create_user : string → string → string → M User.t)
    (validate_zoom_link : string → M unit)
    (data : gmap string string) : M Response :=
  let* title := lift (form_get data "title") in
  let* content := lift (form_get data "description") in
  let* start_date := lift (form_get data "start_date") in
  let* start_time := lift (form_get data "start_time") in
  let* start :=
    lift (strptime (start_date +:+ " " +:+ start_time) "%Y-%m-%d %H:%M") in
  let* end_date := lift (form_get data "end_date") in
  let* end_time := lift (form_get data "end_time") in
  let* end_ :=
    lift (strptime (end_date +:+ " " +:+ end_time) "%Y-%m-%d %H:%M") in
  let* user :=
    (λ db, match first_user 1 db with
           | Some user => (Ok user, db)
           | None => create_user "u" "p" "e@mail.com" db
           end) in
  let owner_id := User.id user in
  let* location_type := lift (form_get data "location_type") in
  let is_zoom := bool_decide (location_type = "vc_url") in
  let* location := lift (form_get data "location") in
  let* _ := if is_zoom then validate_zoom_link location else ret tt in
  let* event :=
    create_event (VStr title) (VDatetime start) (VDatetime end_)
      (VInt owner_id) (VStr content) (VStr location) in
  ret (RedirectResponse ("/event/" +:+ pretty (Event.id event)) 302).

(** ** Vocabulary of the further statements *)

(** The fields [create_new_event] reads from the form. *)
Definition form_fields : list string :=
  ["title"; "description"; "start_date"; "start_time"; "end_date";
   "end_time"; "location_type"; "location"].

(** A session with nothing uncommitted. *)
Definition clean (db : Session) : Prop :=
  txn db = committed db ∧ deleted db = [].

(** No two events of a table share an id. *)
Definition unique_ids (t : Tables) : Prop := NoDup (Event.id <$> events t).

(** What a field of an updated event holds: the value given for its key,
    as the column reads it, or else what it held. *)
Definition assigned {A} (read : PyVal → option A) (given : option PyVal) (old new : A) : Prop :=
  match given with
  | Some v => read v = Some new
  | None => new = old
  end.

(** What a call that failed has done to the events: the committed ones
    are as they were, and the transaction lost rows at most, or is back
    on the committed tables. *)
Definition nothing_added (db db' : Session) : Prop :=
  committed db' = committed db
  ∧ (events (txn db') `sublist_of` events (txn db) ∨ txn db' = committed db).

(** No id is carried by two events, neither in the transaction's view
    nor in the committed tables. *)
Definition unique_session (db : Session) : Prop :=
  unique_ids (txn db) ∧ unique_ids (committed db).

(** ** Further sessions to run the operations on *)

(** A parser for the forms of the examples: it knows two texts. *)
Definition example_strptime (text format : string) : Outcome datetime :=
  if decide (text = "2024-01-01 10:00") then Ok ten
  else if decide (text = "2024-01-01 09:00") then Ok nine
  else Raise TypeError.

Definition example_form : gmap string string :=
  <["title" := "late"]> (<["description" := "agenda"]>
  (<["start_date" := "2024-01-01"]> (<["start_time" := "10:00"]>
  (<["end_date" := "2024-01-01"]> (<["end_time" := "09:00"]>
  (<["location_type" := "address"]> (<["location" := "room 1"]> ∅))))))).

(** Stand-ins for the two helpers the form handler is given: with user 1
    in the table the first is not reached, and the second takes every
    link. *)
Definition no_create_user (username password email : string) : M User.t :=
  raise (NameError "create_user").

Definition accept_link (location : string) : M unit := ret tt.

(** The event the example form describes: it ends before it starts. *)
Definition late : Event.t :=
  Event.mk 2 "late" ten nine (Some "agenda") (Some "room 1") 1.

Definition late_session : Session :=
  run (CreateEvent (VStr "late") (VDatetime ten) (VDatetime nine) (VInt 1)
         (VStr "agenda") (VStr "room 1"))
      example_session.

(** The example session once the stand-up has a new title. *)
Definition retro : Event.t := Event.mk 1 "retro" nine ten None None 1.

Definition retitled_session : Session :=
  run (UpdateEvent 1 {["title" := VStr "retro"]}) example_session.

(** A dictionary for [add_new_event] with every keyword of [Event]. *)
Definition review_values : gmap string PyVal :=
  <["title" := VStr "review"]> (<["start" := VDatetime ten]>
  (<["end" := VDatetime eleven]> (<["owner_id" := VInt 1]>
  (<["content" := VNone]> (<["location" := VStr "room 1"]> ∅))))).

Definition sorted_heap : Heap :=
  {[ 0%nat := [standup; Event.mk 2 "review" eleven eleven None None 1] ]}.

(** * Properties *)

(** ** The order on timestamps *)

Lemma tuple_cmp_lt_iff (a b : list Z) : tuple_cmp a b = Lt ↔ tuple_lt a b.
Proof.
  revert b; induction a as [|x a IH]; intros [|y b]; simpl.
  - split; [discriminate | inversion 1].
  - split; [constructor | done].
  - split; [discriminate | inversion 1].
  - destruct (Z.compare_spec x y) as [->|Hlt|Hgt].
    + rewrite IH. split; [by constructor 3 | ].
      inversion 1; subst; [lia | done].
    + split; [by constructor 2 | done].
    + split; [discriminate | ].
      inversion 1; subst; lia.
Qed.

Lemma tuple_cmp_opp (a b : list Z) : tuple_cmp b a = CompOpp (tuple_cmp a b).
Proof.
  revert b; induction a as [|x a IH]; intros [|y b]; simpl; try done.
  rewrite (Z.compare_antisym x y).
  destruct (x ?= y); simpl; auto.
Qed.

Lemma tuple_cmp_le_trans (a b c : list Z) :
  tuple_cmp a b ≠ Gt → tuple_cmp b c ≠ Gt → tuple_cmp a c ≠ Gt.
Proof.
  revert b c; induction a as [|x a IH]; intros [|y b] [|z c]; simpl; try done.
  destruct (Z.compare_spec x y) as [->|Hxy|Hxy]; [|clear IH|done].
  - destruct (z ?= y) eqn:E, (y ?= z) eqn:E'; try done; eauto;
      rewrite Z.compare_antisym, E in E'; done.
  - intros _.
    destruct (Z.compare_spec y z) as [->|Hyz|Hyz]; [| |done]; intros _.
    + by rewrite (proj2 (Z.compare_lt_iff x z)).
    + rewrite (proj2 (Z.compare_lt_iff x z)); [done | lia].
Qed.

Lemma datetime_lt_earlier (a b : datetime) : datetime_lt a b = true ↔ earlier a b.
Proof.
  unfold datetime_lt, earlier, datetime_cmp. rewrite <- tuple_cmp_lt_iff.
  destruct (tuple_cmp _ _); split; congruence.
Qed.

Lemma datetime_lt_false (a b : datetime) :
  datetime_lt b a = false ↔ datetime_cmp a b ≠ Gt.
Proof.
  unfold datetime_lt, datetime_cmp.
  rewrite (tuple_cmp_opp (astuple a) (astuple b)).
  destruct (tuple_cmp _ _); simpl; split; congruence.
Qed.

Lemma datetime_lt_asym (a b : datetime) :
  datetime_lt a b = true → datetime_lt b a = false.
Proof.
  unfold datetime_lt, datetime_cmp.
  rewrite (tuple_cmp_opp (astuple a) (astuple b)).
  destruct (tuple_cmp _ _); simpl; congruence.
Qed.

(** ** Running the monad *)

Ltac unfold_m :=
  unfold bind, ret, lift, raise, try_except, logger_critical, logger_exception.

Lemma identities_same_key (event_id : Z) (rows : list Event.t) :
  Forall (λ e, Event.id e = event_id) rows →
  identities rows = match rows with [] => [] | e :: _ => [e] end.
Proof.
  induction 1 as [|e rows He Hrows IH]; [done|]. simpl. f_equal.
  rewrite IH. destruct rows as [|e' rows]; [done|].
  apply Forall_cons in Hrows as [He' _].
  rewrite filter_cons, filter_nil. rewrite decide_False; [done|]. congruence.
Qed.

(** The lookup by primary key: the first row with the id, if any. *)
Lemma get_event_by_id_eq (event_id : Z) (db : Session) :
  get_event_by_id event_id db
  = match filter (λ e, Event.id e = event_id) (events (txn db)) with
    | [] =>
        (Raise (NoResultFound
                  ("Event ID does not exist. ID: " +:+ pretty event_id)), db)
    | event :: _ => (Ok event, db)
    end.
Proof.
  unfold get_event_by_id.
  rewrite (identities_same_key event_id).
  - by destruct (filter _ _).
  - apply Forall_forall. by intros e [? _]%list_elem_of_filter.
Qed.

Lemma get_event_by_id_Ok (event_id : Z) (db db' : Session) (e : Event.t) :
  get_event_by_id event_id db = (Ok e, db') →
  db' = db
  ∧ head (filter (λ e, Event.id e = event_id) (events (txn db))) = Some e.
Proof.
  rewrite get_event_by_id_eq.
  destruct (filter _ _) as [|e1 l]; simpl; intros H; by simplify_eq.
Qed.


Lemma get_event_or_http_error_Ok (event_id : Z) (db : Session) (e : Event.t) :
  get_event_by_id event_id db = (Ok e, db) →
  get_event_or_http_error event_id db = (Ok e, db).
Proof. unfold get_event_or_http_error. by intros ->. Qed.

(** ** The updatable fields *)

Lemma pick_lookup (event acc : gmap string PyVal) (l : list string) (k : string) :
  foldl (λ acc i, match event !! i with
                  | Some v => <[i := v]> acc
                  | None => acc
                  end) acc l !! k
  = if decide (k ∈ l)
    then match event !! k with Some v => Some v | None => acc !! k end
    else acc !! k.
Proof.
  revert acc; induction l as [|a l IH]; intros acc; simpl.
  - done.
  - rewrite IH. destruct (decide (k = a)) as [->|Hne].
    + rewrite (decide_True (P := a ∈ a :: l)) by (by left).
      destruct (event !! a); [rewrite lookup_insert_eq|]; by case_decide.
    + destruct (decide (k ∈ l)).
      * rewrite decide_True by (by right).
        destruct (event !! a); [by rewrite lookup_insert_ne | done].
      * rewrite decide_False by (rewrite elem_of_cons; tauto).
        destruct (event !! a); [by rewrite lookup_insert_ne | done].
Qed.

Lemma get_items_lookup (event : gmap string PyVal) (k : string) :
  get_items_that_can_be_updated event !! k
  = if decide (k ∈ updatable) then event !! k else None.
Proof.
  unfold get_items_that_can_be_updated. rewrite pick_lookup.
  case_decide; [by destruct (event !! k) | done].
Qed.

Lemma get_items_idemp (event : gmap string PyVal) :
  get_items_that_can_be_updated (get_items_that_can_be_updated event)
  = get_items_that_can_be_updated event.
Proof.
  apply map_eq; intros k. rewrite !get_items_lookup. by case_decide.
Qed.

Lemma get_items_empty (event : gmap string PyVal) :
  get_items_that_can_be_updated event = ∅
  ↔ ∀ k, k ∈ updatable → event !! k = None.
Proof.
  rewrite map_empty. split; intros H k.
  - intros Hk. specialize (H k). rewrite get_items_lookup in H.
    by rewrite decide_True in H.
  - rewrite get_items_lookup. case_decide; auto.
Qed.

(** ** Rejected updates *)

Lemma update_event_rejects (db : Session) (event_id : Z)
    (event : gmap string PyVal) (old_event : Event.t) :
  get_event_by_id event_id db = (Ok old_event, db) →
  get_items_that_can_be_updated event ≠ ∅ →
  is_it_possible_to_change_dates
    old_event (get_items_that_can_be_updated event) ≠ Ok true →
  update_event event_id event db = (Ok None, db).
Proof.
  intros Hget Hne Hbad. unfold update_event.
  rewrite bool_decide_eq_false_2 by done.
  unfold_m. rewrite (get_event_or_http_error_Ok _ _ _ Hget).
  destruct (is_it_possible_to_change_dates _ _) as [[]|e] eqn:E; simpl;
    [done | done | ].
  unfold is_it_possible_to_change_dates, is_date_before, py_lt in E.
  repeat case_match; by simplify_eq.
Qed.

(** ** Date validation *)

(** C8 (as stated, refuted): on operands of different types
    [is_date_before] does not answer "invalid", the [TypeError] of the
    comparison leaves the function. *)
Lemma is_date_before_propagates_TypeError :
  is_date_before (VStr "2024-01-01") (VDatetime (mk_datetime 2024 1 1 9 0 0 0))
  = Raise TypeError
  ∧ is_date_before (VStr "2024-01-01") (VDatetime (mk_datetime 2024 1 1 9 0 0 0))
    ≠ Ok false.
Proof. split; [reflexivity | discriminate]. Qed.

(** C8 (amended): [check_date_validation] is total; it answers true
    exactly when the first operand is strictly less than the second (for
    two timestamps: when the first is earlier), and false when the
    operands cannot be compared.  [is_date_before], the validation of the
    update path, gives the same answer on comparable operands and raises
    [TypeError] on the others; [update_event] catches it and returns
    None, leaving the session as it was. *)
Theorem date_validation_total (a b : PyVal) :
  (∃ r, check_date_validation a b = Ok r ∧ (r = true ↔ py_lt a b = Ok true))
  ∧ (∀ x y, check_date_validation (VDatetime x) (VDatetime y) = Ok true
            ↔ earlier x y)
  ∧ (∀ r, py_lt a b = Ok r →
          check_date_validation a b = Ok r ∧ is_date_before a b = Ok r)
  ∧ (py_lt a b = Raise TypeError →
       check_date_validation a b = Ok false
       ∧ is_date_before a b = Raise TypeError)
  ∧ (∀ db event_id event old_event,
       get_event_by_id event_id db = (Ok old_event, db) →
       get_items_that_can_be_updated event ≠ ∅ →
       is_it_possible_to_change_dates
         old_event (get_items_that_can_be_updated event) = Raise TypeError →
       update_event event_id event db = (Ok None, db)).
Proof.
  split_and!.
  - unfold check_date_validation.
    destruct (py_lt a b) as [r|e] eqn:E.
    + exists r. split; [done | split; congruence].
    + exists false. unfold py_lt in E.
      repeat case_match; simplify_eq; split; done.
  - intros x y. unfold check_date_validation; simpl.
    rewrite <- datetime_lt_earlier. split; congruence.
  - intros r E. unfold check_date_validation, is_date_before. by rewrite E.
  - intros E. unfold check_date_validation, is_date_before. by rewrite E.
  - intros db event_id event old_event Hget Hne E.
    apply (update_event_rejects _ _ _ _ Hget Hne). by rewrite E.
Qed.

(** ** Lookup by id *)

(** C4 (as stated, refuted): on the fixture with two rows under one id
    the two rows are one instance, which the lookup returns; nothing is
    raised and nothing is logged, although more than one row carries the
    id. *)
Lemma get_event_by_id_shared_key :
  length (filter (λ e, Event.id e = 1) (events (txn duplicated_session)))
  = 2%nat
  ∧ get_event_by_id 1 duplicated_session = (Ok standup, duplicated_session)
  ∧ ∀ msg, get_event_by_id 1 duplicated_session
           ≠ (Raise (MultipleResultsFound msg),
              add_log (Critical msg) duplicated_session).
Proof. split_and!; [reflexivity|reflexivity|discriminate]. Qed.

(** C4 (amended): for an id the store can represent, [get_event_by_id]
    has two outcomes, decided by whether a row carries the id: none, a
    NoResultFound error; one or more, the instance of these rows, which
    is the first of them, hence that row when exactly one carries the
    id.  The session is as it was and nothing is logged: the
    MultipleResultsFound branch is never taken by a lookup on the
    primary key. *)
Theorem get_event_by_id_outcomes (db : Session) (event_id : Z) :
  representable event_id →
  let rows := filter (λ e, Event.id e = event_id) (events (txn db)) in
  ((rows = []
    ∧ (∀ e, e ∈ events (txn db) → Event.id e ≠ event_id)
    ∧ get_event_by_id event_id db
      = (Raise (NoResultFound
                  ("Event ID does not exist. ID: " +:+ pretty event_id)), db))
   ∨ (∃ e rest,
        rows = e :: rest
        ∧ e ∈ events (txn db) ∧ Event.id e = event_id
        ∧ get_event_by_id event_id db = (Ok e, db)))
  ∧ (∀ msg, (get_event_by_id event_id db).1 ≠ Raise (MultipleResultsFound msg)).
Proof.
  intros _. simpl. rewrite get_event_by_id_eq.
  destruct (filter _ _) as [|e1 l] eqn:E.
  - split; [|done]. left. split_and!; [done | | done].
    intros e He Hid.
    assert (e ∈ filter (λ e, Event.id e = event_id) (events (txn db))) as Hin
      by (by apply list_elem_of_filter).
    rewrite E in Hin. by apply not_elem_of_nil in Hin.
  - split; [|done]. right. exists e1, l.
    assert (e1 ∈ filter (λ e, Event.id e = event_id) (events (txn db))) as Hin
      by (rewrite E; by left).
    apply list_elem_of_filter in Hin as [? ?]. done.
Qed.

(** ** Updates *)

(** C5: only the five updatable keys survive the filter, [update_event]
    sees its mapping through the filter only, and a mapping without any
    of the five keys makes it return None with the session untouched. *)
Theorem update_event_drops_other_keys (db : Session) (event_id : Z)
    (event : gmap string PyVal) :
  (∀ k, get_items_that_can_be_updated event !! k
        = if decide (k ∈ updatable) then event !! k else None)
  ∧ update_event event_id event db
    = update_event event_id (get_items_that_can_be_updated event) db
  ∧ ((∀ k, k ∈ updatable → event !! k = None) →
     update_event event_id event db = (Ok None, db)).
Proof.
  split_and!.
  - apply get_items_lookup.
  - unfold update_event. by rewrite get_items_idemp.
  - intros H. apply get_items_empty in H. unfold update_event.
    by rewrite bool_decide_eq_true_2.
Qed.

(** C1: for an event that exists, an update that names start or end and
    whose resulting start (given, or else the stored one) is not strictly
    before the resulting end (given, or else the stored one) returns
    None, raises nothing and leaves the session as it was. *)
Theorem update_event_rejects_unordered_dates (db : Session) (event_id : Z)
    (event : gmap string PyVal) (old_event : Event.t) :
  get_event_by_id event_id db = (Ok old_event, db) →
  event !! "start" ≠ None ∨ event !! "end" ≠ None →
  py_lt (default (VDatetime (Event.start old_event)) (event !! "start"))
        (default (VDatetime (Event.end_ old_event)) (event !! "end"))
  ≠ Ok true →
  update_event event_id event db = (Ok None, db).
Proof.
  intros Hget Hkey Hbad.
  apply (update_event_rejects _ _ _ _ Hget).
  - rewrite get_items_empty. intros H.
    destruct Hkey as [Hk|Hk]; apply Hk, H; unfold updatable; repeat constructor.
  - unfold is_it_possible_to_change_dates, is_date_before.
    rewrite !get_items_lookup.
    rewrite !decide_True by (unfold updatable; repeat constructor). done.
Qed.

(** ** What an update can touch *)

Lemma set_column_keeps_keys (col : string) (v : PyVal) (f : Event.t → Event.t) (e : Event.t) :
  set_column col v = Some f → col ≠ "id" → col ≠ "owner_id" →
  Event.id (f e) = Event.id e ∧ Event.owner_id (f e) = Event.owner_id e.
Proof.
  unfold set_column. intros H ? ?.
  repeat case_decide; try done;
    destruct v; simpl in H; by simplify_eq.
Qed.

Lemma set_clauses_keep_keys (values : gmap string PyVal) (cols : list string)
    (f : Event.t → Event.t) (e : Event.t) :
  (∀ col, col ∈ cols → values !! col ≠ None → col ≠ "id" ∧ col ≠ "owner_id") →
  set_clauses values cols = Some f →
  Event.id (f e) = Event.id e ∧ Event.owner_id (f e) = Event.owner_id e.
Proof.
  revert f e; induction cols as [|col cols IH]; intros f e Hcols; simpl.
  - intros [= <-]. done.
  - destruct (values !! col) as [v|] eqn:E.
    + destruct (set_column col v) as [f1|] eqn:E1; [|done].
      destruct (set_clauses values cols) as [g|] eqn:E2; [|done].
      intros [= <-].
      destruct (Hcols col) as [? ?]; [by left | by rewrite E | ].
      destruct (IH g (f1 e)) as [-> ->]; [ | done | ].
      * intros c Hc. apply Hcols. by right.
      * by eapply set_column_keeps_keys.
    + apply IH. intros c Hc. apply Hcols. by right.
Qed.

Lemma assignments_keep_keys (event : gmap string PyVal) (f : Event.t → Event.t) (e : Event.t) :
  assignments (get_items_that_can_be_updated event) = Some f →
  Event.id (f e) = Event.id e ∧ Event.owner_id (f e) = Event.owner_id e.
Proof.
  unfold assignments. case_bool_decide; [|done].
  apply set_clauses_keep_keys. intros col _.
  rewrite get_items_lookup. case_decide as Hin; [|done].
  intros _. apply list_elem_of_In in Hin. simpl in Hin.
  split; intros ->; intuition discriminate.
Qed.

(** ** Lists of rows *)

Lemma filter_id_update (event_id : Z) (f : Event.t → Event.t) (l : list Event.t) :
  (∀ e, Event.id (f e) = Event.id e) →
  filter (λ e, Event.id e = event_id)
         ((λ e, if decide (Event.id e = event_id) then f e else e) <$> l)
  = f <$> filter (λ e, Event.id e = event_id) l.
Proof.
  intros Hf. induction l as [|a l IH]; [done|].
  rewrite fmap_cons, !filter_cons.
  destruct (decide (Event.id a = event_id)) as [Ha|Ha].
  - rewrite decide_True by (by rewrite Hf). by rewrite fmap_cons, IH.
  - by rewrite decide_False.
Qed.

Lemma without_events_update (gone : list Event.t) (g : Event.t → Event.t) (l : list Event.t) :
  (∀ e, Event.id (g e) = Event.id e) →
  without_events gone (g <$> l) = g <$> without_events gone l.
Proof.
  intros Hg. unfold without_events. induction l as [|a l IH]; [done|].
  rewrite fmap_cons, !filter_cons, Hg.
  case_decide; by rewrite ?fmap_cons, IH.
Qed.


Lemma without_events_nil (l : list Event.t) : without_events [] l = l.
Proof.
  unfold without_events. induction l as [|a l IH]; [done|].
  rewrite filter_cons, decide_True by (simpl; apply not_elem_of_nil).
  by rewrite IH.
Qed.

Lemma without_events_cons (e : Event.t) (gone l : list Event.t) :
  without_events (e :: gone) l
  = filter (λ x, Event.id x ≠ Event.id e) (without_events gone l).
Proof.
  unfold without_events. rewrite list_filter_filter.
  apply list_filter_iff. intros x. rewrite fmap_cons, not_elem_of_cons. tauto.
Qed.

(** ** Persisting an update *)

Ltac unfold_store :=
  unfold query_Event_update, query_UserEvent_delete, session_delete, commit,
    autoflush_, flush, next_fault, fail_rolled_back, rollback, save, flushed,
    set_txn, set_deleted, set_faults, add_log, with_events, with_user_events.

Lemma without_events_updated (event_id : Z) (f : Event.t → Event.t) (gone l : list Event.t) :
  (∀ e, Event.id (f e) = Event.id e) →
  without_events gone
    ((λ e, if decide (Event.id e = event_id) then f e else e) <$> l)
  = (λ e, if decide (Event.id e = event_id) then f e else e)
      <$> without_events gone l.
Proof.
  intros Hf. apply without_events_update. intros e. by case_decide.
Qed.

Lemma filter_subseteq {A} (P : A → Prop) `{!∀ x, Decision (P x)} (l : list A) :
  filter P l ⊆ l.
Proof. intros x Hx. by apply list_elem_of_filter in Hx as [_ ?]. Qed.

Ltac solve_not_persisted :=
  split_and!; try done;
  first [ by left
        | right; split_and!; try done;
          first [ apply filter_subseteq
                | etrans; [apply filter_subseteq | apply filter_subseteq] ] ].

Lemma persist_update_spec (event_id : Z) (values : gmap string PyVal) (db : Session) :
  (∀ f e, assignments values = Some f → Event.id (f e) = Event.id e) →
  match persist_update event_id values db with
  | (Raise e, db') =>
      e = SQLAlchemyError ∧ not_persisted db db'
  | (Ok _, db') =>
      ∃ f fs,
        assignments values = Some f
        ∧ db' = (let T := mk_Tables (updated_events event_id f db)
                            (user_events (txn db)) (users (txn db)) in
                 mk_Session T T [] (autoflush db) fs (log db))
  end.
Proof.
  intros Hkeys. unfold persist_update, updated_events, not_persisted.
  unfold_store. unfold_m.
  destruct (assignments values) as [f|] eqn:Ea.
  2:{ destruct db as [c t d [] fs lg], d as [|d0 d], fs as [|[] fs]; simpl;
        destruct t; simpl; solve_not_persisted. }
  specialize (λ e, Hkeys f e eq_refl).
  destruct db as [c t d af fs lg], t as [es ues us]; simpl.
  destruct af, d as [|d0 d], fs as [|[] [|[] [|[] fs]]]; simpl.
  all: try solve_not_persisted.
  all: eexists f, _; split; [done|].
  all: rewrite ?without_events_nil, ?without_events_updated by done; done.
Qed.

Lemma update_event_valid (db : Session) (event_id : Z)
    (event : gmap string PyVal) (old_event : Event.t) :
  get_event_by_id event_id db = (Ok old_event, db) →
  get_items_that_can_be_updated event ≠ ∅ →
  is_it_possible_to_change_dates
    old_event (get_items_that_can_be_updated event) = Ok true →
  update_event event_id event db
  = match persist_update event_id (get_items_that_can_be_updated event) db with
    | (Raise e, db') =>
        match e with
        | AttributeError | TypeError => (Ok None, db')
        | _ => if is_SQLAlchemyError e then (Ok None, db') else (Raise e, db')
        end
    | (Ok _, db') =>
        match get_event_by_id event_id db' with
        | (Ok e, db'') => (Ok (Some e), db'')
        | (Raise e, db'') => (Raise e, db'')
        end
    end.
Proof.
  intros Hget Hne Hok. unfold update_event, persist_update.
  rewrite bool_decide_eq_false_2 by done.
  unfold_m. rewrite (get_event_or_http_error_Ok _ _ _ Hget), Hok. simpl.
  destruct (query_Event_update _ _ db) as [[[]|e] db1]; simpl.
  - destruct (commit db1) as [[[]|e] db2]; simpl; [done|].
    by destruct e.
  - by destruct e.
Qed.


(** ** Deletion *)

Lemma delete_rows_spec (event : Event.t) (db : Session) :
  match delete_rows event (Event.id event) db with
  | (Ok (RedirectResponse url status_code), db') =>
      url = "/calendar" ∧ status_code = 200
      ∧ ∃ fs, db' = (let T := event_removed (Event.id event) (flushed db) in
                     mk_Session T T [] (autoflush db) fs (log db))
  | (Ok (TemplateResponse name event_id status_code), db') =>
      name = "event/eventview.html" ∧ event_id = Event.id event
      ∧ status_code = 500
      ∧ true ∈ faults db
      ∧ not_persisted db db'
  | (Raise _, _) => False
  end.
Proof.
  unfold delete_rows, event_removed, not_persisted.
  unfold_store. unfold_m.
  destruct db as [c t d af fs lg], t as [es ues us]; simpl.
  destruct af, fs as [|[] [|[] [|[] fs]]]; simpl.
  all: rewrite ?(without_events_cons event d es).
  all: repeat match goal with
              | |- _ ∧ _ => split
              | |- ∃ _, _ => eexists
              end; try done.
  all: try (by left); try (by right; left); try (by do 2 right; left).
  all: right; split_and!; try done.
  all: etrans; [apply filter_subseteq | apply filter_subseteq].
Qed.

Lemma get_event_or_http_error_spec (event_id : Z) (db : Session) :
  match get_event_by_id event_id db with
  | (Ok e, _) =>
      get_event_by_id event_id db = (Ok e, db)
      ∧ get_event_or_http_error event_id db = (Ok e, db)
      ∧ Event.id e = event_id ∧ e ∈ events (txn db)
  | (Raise _, db1) =>
      (∃ code detail,
         get_event_or_http_error event_id db
         = (Raise (HTTPException code detail), db1))
      ∧ committed db1 = committed db ∧ txn db1 = txn db
      ∧ deleted db1 = deleted db ∧ autoflush db1 = autoflush db
  end.
Proof.
  unfold get_event_or_http_error. rewrite get_event_by_id_eq.
  destruct (filter _ _) as [|e l] eqn:E; simpl; eauto 10.
  assert (e ∈ filter (λ e, Event.id e = event_id) (events (txn db))) as Hin
    by (rewrite E; by left).
  apply list_elem_of_filter in Hin as [? ?]. done.
Qed.



(** ** Creation *)

Lemma next_id_fresh (rows : list Event.t) (e : Event.t) :
  e ∈ rows → Event.id e < next_id rows.
Proof.
  unfold next_id. induction rows as [|a rows IH]; [inversion 1|].
  rewrite elem_of_cons, fmap_cons. cbn [foldr]. intros [->|H]; [lia|].
  specialize (IH H). lia.
Qed.

Lemma create_model_Event_spec (kw : gmap string PyVal) (db : Session) :
  match create_model_Event kw db with
  | (Ok e, db') =>
      (∃ id, primary_key kw (events (txn db)) = Some id
             ∧ new_Event kw id = Some e)
      ∧ kw !! "owner_id" = Some (VInt (Event.owner_id e))
      ∧ db' = (let T := mk_Tables (events (flushed db) ++ [e])
                          (user_events (txn db)) (users (txn db)) in
               mk_Session T T [] (autoflush db) (faults db) (log db))
  | (Raise TypeError, db') => db' = db
  | (Raise e, db') => e = SQLAlchemyError ∧ db' = rollback db
  end.
Proof.
  unfold create_model_Event. case_bool_decide; [|done].
  destruct (primary_key kw _) as [id|] eqn:Ep; simpl; [|done].
  destruct (new_Event kw id) as [e|] eqn:E; [|done].
  unfold_m; unfold_store; simpl. split_and!; [by exists id| |done].
  unfold new_Event in E.
  destruct (kw !! "owner_id") as [[]|]; simpl in E;
    repeat (match type of E with
            | context [?o ≫= _] => destruct o; simpl in E
            end); by simplify_eq.
Qed.

Lemma create_pair_spec (kw : gmap string PyVal) (owner_id : PyVal) (db : Session) :
  kw !! "owner_id" = Some owner_id →
  match (let* event := create_model_Event kw in
         let* _ := create_model_UserEvent owner_id (Event.id event) in
         ret event) db with
  | (Ok e, db') =>
      (∃ id, primary_key kw (events (txn db)) = Some id
             ∧ new_Event kw id = Some e)
      ∧ db' = created e db
  | (Raise TypeError, db') => db' = db
  | (Raise e, db') => e = SQLAlchemyError ∧ db' = rollback db
  end.
Proof.
  intros Ho. pose proof (create_model_Event_spec kw db) as H.
  unfold bind at 1.
  destruct (create_model_Event kw db) as [[e|x] db1]; [|done].
  destruct H as (Hnew & Hown & ->). rewrite Ho in Hown. simplify_eq.
  unfold create_model_UserEvent, created, owner_row. simpl.
  unfold_m; unfold_store; simpl. by rewrite without_events_nil.
Qed.

Lemma create_event_typed (db : Session) (title : string) (start end_ : datetime)
    (owner_id : Z) (content location : option string) :
  create_event (VStr title) (VDatetime start) (VDatetime end_) (VInt owner_id)
    (optional content) (optional location) db
  = (let event := Event.mk (next_id (events (txn db))) title start end_
                    content location owner_id in
     (Ok event, created event db)).
Proof.
  unfold create_event.
  set (kw := <["title" := _]> _).
  set (event := Event.mk (next_id (events (txn db))) title start end_
                  content location owner_id).
  pose proof (create_pair_spec kw (VInt owner_id) db eq_refl) as H.
  assert (new_Event kw (next_id (events (txn db))) = Some event) as Hnew
    by (by destruct content, location).
  assert (create_model_Event kw db
          = (let* _ := save (λ t, with_events (events t ++ [event]) t) in
             ret event) db) as Hc.
  { unfold create_model_Event.
    rewrite bool_decide_eq_true_2.
    - change (primary_key kw (events (txn db)))
        with (Some (next_id (events (txn db)))).
      simpl. by rewrite Hnew.
    - subst kw. repeat (apply map_Forall_insert_2; [repeat constructor|]).
      apply map_Forall_empty. }
  unfold bind at 1 in H. unfold bind at 1. rewrite Hc in *.
  revert H. unfold_m; unfold_store; simpl.
  intros [_ ->]. done.
Qed.

(** C3: called with a title, two timestamps, an owner id and optional
    content and location, [create_event] returns the new event, whose id
    no event of the table has; the committed events are those the session
    held plus that event, the committed association rows those it held
    plus the row (owner, new id), and the users are untouched. *)
Theorem create_event_inserts_event_and_owner_row (db : Session) (title : string)
    (start end_ : datetime) (owner_id : Z) (content location : option string) :
  ∃ event db',
    create_event (VStr title) (VDatetime start) (VDatetime end_) (VInt owner_id)
      (optional content) (optional location) db = (Ok event, db')
    ∧ event = Event.mk (next_id (events (txn db))) title start end_
                content location owner_id
    ∧ (∀ e, e ∈ events (txn db) → Event.id e ≠ Event.id event)
    ∧ events (committed db') = (events (flushed db) ++ [event])%list
    ∧ user_events (committed db')
      = (user_events (flushed db)
         ++ [UserEvent.mk owner_id (Event.id event)])%list
    ∧ users (committed db') = users (flushed db)
    ∧ txn db' = committed db'.
Proof.
  eexists _, _. split; [apply create_event_typed|].
  split_and!; try done.
  intros e He. apply next_id_fresh in He. simpl. lia.
Qed.

Lemma add_new_event_rejects (db : Session) (values : gmap string PyVal)
    (start end_ : PyVal) :
  values !! "start" = Some start → values !! "end" = Some end_ →
  py_lt start end_ ≠ Ok true →
  add_new_event values db = (Ok None, db).
Proof.
  intros Hs He Hlt. unfold add_new_event, getitem. rewrite Hs, He.
  unfold_m. unfold check_date_validation.
  destruct (py_lt start end_) as [[]|e] eqn:E; [done|done|].
  assert (e = TypeError) as ->
    by (unfold py_lt in E; destruct start, end_; by simplify_eq).
  done.
Qed.

(** C9: with a start that is not strictly before the end, [create_event]
    still returns the event, and the event and the row of its owner are
    committed; [add_new_event], given the same two timestamps, returns
    None and leaves the session, hence both tables, as they were. *)
Theorem creation_paths_differ_on_unordered_dates (db : Session) (title : string)
    (start end_ : datetime) (owner_id : Z) (content location : option string)
    (values : gmap string PyVal) :
  datetime_lt start end_ = false →
  values !! "start" = Some (VDatetime start) →
  values !! "end" = Some (VDatetime end_) →
  (∃ event db',
     create_event (VStr title) (VDatetime start) (VDatetime end_)
       (VInt owner_id) (optional content) (optional location) db
     = (Ok event, db')
     ∧ Event.start event = start ∧ Event.end_ event = end_
     ∧ event ∈ events (committed db')
     ∧ owner_row event ∈ user_events (committed db'))
  ∧ add_new_event values db = (Ok None, db).
Proof.
  intros Hlt Hs He. split.
  - eexists _, _. split; [apply create_event_typed|].
    simpl. split_and!; try done; apply elem_of_app; right; by left.
  - apply (add_new_event_rejects _ _ _ _ Hs He). simpl. by rewrite Hlt.
Qed.

(** ** The owner association as an invariant *)

Lemma elem_of_without_events (gone l : list Event.t) (x : Event.t) :
  x ∈ without_events gone l → x ∈ l.
Proof. unfold without_events. by intros [_ ?]%list_elem_of_filter. Qed.

Lemma session_inv_same (db db' : Session) :
  committed db' = committed db → txn db' = txn db →
  session_inv db → session_inv db'.
Proof. unfold session_inv. by intros -> ->. Qed.

Lemma session_inv_not_persisted (db db' : Session) :
  not_persisted db db' → session_inv db → session_inv db'.
Proof.
  unfold session_inv, not_persisted.
  intros (-> & _ & _ & [[-> _]|(-> & _ & Hsub)]) (Hown & Hue & Hev);
    split_and!; try done.
  by etrans.
Qed.

Lemma session_inv_created (e : Event.t) (db : Session) :
  session_inv db → session_inv (created e db).
Proof.
  unfold session_inv, created, every_event_owned; simpl.
  intros (Hown & Hue & Hev). split_and!; try done.
  intros x [Hx| ->%list_elem_of_singleton]%elem_of_app; apply elem_of_app.
  - left. rewrite Hue. apply Hown, Hev.
    by eapply elem_of_without_events.
  - right. by left.
Qed.

Lemma session_inv_updated (event_id : Z) (f : Event.t → Event.t)
    (fs : list bool) (db : Session) :
  (∀ e, Event.id (f e) = Event.id e ∧ Event.owner_id (f e) = Event.owner_id e) →
  session_inv db →
  session_inv
    (let T := mk_Tables (updated_events event_id f db)
                (user_events (txn db)) (users (txn db)) in
     mk_Session T T [] (autoflush db) fs (log db)).
Proof.
  unfold session_inv, every_event_owned, updated_events; simpl.
  intros Hf (Hown & Hue & Hev). split_and!; try done.
  intros x (e & -> & He)%list_elem_of_fmap.
  assert (owner_row e ∈ user_events (txn db)) as Hrow.
  { rewrite Hue. apply Hown, Hev.
    by eapply elem_of_without_events. }
  case_decide; [|done].
  unfold owner_row in *. by destruct (Hf e) as [-> ->].
Qed.

Lemma session_inv_deleted (event_id : Z) (fs : list bool) (db : Session) :
  session_inv db →
  session_inv
    (let T := event_removed event_id (flushed db) in
     mk_Session T T [] (autoflush db) fs (log db)).
Proof.
  unfold session_inv, every_event_owned, event_removed; simpl.
  intros (Hown & Hue & Hev). split_and!; try done.
  intros x [Hid Hx]%list_elem_of_filter.
  apply list_elem_of_filter. split; [done|].
  rewrite Hue. apply Hown, Hev.
  by eapply elem_of_without_events.
Qed.

Lemma not_persisted_rollback (db : Session) : not_persisted db (rollback db).
Proof. unfold not_persisted, rollback; simpl. split_and!; auto. Qed.

Lemma get_event_by_id_tables (event_id : Z) (db : Session) :
  committed (get_event_by_id event_id db).2 = committed db
  ∧ txn (get_event_by_id event_id db).2 = txn db
  ∧ deleted (get_event_by_id event_id db).2 = deleted db
  ∧ autoflush (get_event_by_id event_id db).2 = autoflush db.
Proof.
  rewrite get_event_by_id_eq. by destruct (filter _ _) as [|e l].
Qed.

Lemma create_event_effect (title start end_ owner_id content location : PyVal)
    (db : Session) :
  effect db (create_event title start end_ owner_id content location db).2.
Proof.
  unfold create_event. set (kw := <["title" := _]> _).
  pose proof (create_pair_spec kw owner_id db eq_refl) as H.
  destruct (bind _ _ db) as [[e|x] db']; simpl.
  - destruct H as [_ ->]. by eapply effect_created.
  - destruct x;
      first [ subst db'; by apply effect_none
            | destruct H as [_ ->];
              apply effect_not_persisted, not_persisted_rollback ].
Qed.

Lemma add_new_event_effect (values : gmap string PyVal) (db : Session) :
  effect db (add_new_event values db).2.
Proof.
  unfold add_new_event, getitem.
  destruct (values !! "start") as [start|]; unfold_m; [|by apply effect_none].
  destruct (values !! "end") as [end_|]; [|by apply effect_none].
  assert (∃ b, check_date_validation start end_ = Ok b) as [b ->].
  { unfold check_date_validation.
    destruct (py_lt start end_) as [b|e] eqn:E; [by eexists|].
    unfold py_lt in E. repeat case_match; simplify_eq; by eexists. }
  destruct b; simpl; [|by apply effect_none].
  pose proof (create_model_Event_spec values db) as H.
  destruct (create_model_Event values db) as [[e|x] db1].
  - destruct H as (Hnew & -> & ->). simpl.
    unfold create_model_UserEvent; simpl. unfold_m; unfold_store; simpl.
    rewrite without_events_nil. by eapply effect_created.
  - destruct x; simpl;
      first [ subst db1; by apply effect_none
            | destruct H as [_ ->];
              apply effect_not_persisted, not_persisted_rollback ].
Qed.

Lemma update_event_effect (event_id : Z) (event : gmap string PyVal) (db : Session) :
  effect db (update_event event_id event db).2.
Proof.
  destruct (decide (get_items_that_can_be_updated event = ∅)) as [He|Hne].
  { unfold update_event. rewrite bool_decide_eq_true_2 by done.
    by apply effect_none. }
  pose proof (get_event_or_http_error_spec event_id db) as Hget.
  destruct (get_event_by_id event_id db) as [[old_event|x] db1] eqn:Eg.
  2:{ destruct Hget as ((code & detail & Hget) & ? & ? & ? & ?).
      unfold update_event. rewrite bool_decide_eq_false_2 by done.
      unfold bind at 1. rewrite Hget. by apply effect_none. }
  destruct Hget as ([= ->] & _). rename Eg into Hget.
  destruct (decide (is_it_possible_to_change_dates old_event
                      (get_items_that_can_be_updated event) = Ok true))
    as [Hok|Hbad].
  2:{ rewrite (update_event_rejects _ _ _ _ Hget Hne Hbad).
      by apply effect_none. }
  rewrite (update_event_valid _ _ _ _ Hget Hne Hok).
  pose proof (persist_update_spec event_id
                (get_items_that_can_be_updated event) db) as Hspec.
  destruct (persist_update _ _ db) as [[[]|x] db'].
  - destruct Hspec as (f & fs & Ea & ->).
    { intros f e. apply assignments_keep_keys. }
    match goal with
    | |- context [get_event_by_id event_id ?s] =>
        pose proof (get_event_by_id_tables event_id s) as (Hc & Ht & Hd & Ha);
        destruct (get_event_by_id event_id s) as [[]?]
    end; simpl in *.
    all: refine (effect_updated _ _ event_id f _ _ eq_refl Hc Ht Hd Ha);
      intros e'; by eapply assignments_keep_keys.
  - destruct Hspec as [-> Hnp].
    { intros f e. apply assignments_keep_keys. }
    by apply effect_not_persisted.
Qed.

Lemma delete_event_effect (event_id : Z) (db : Session) :
  effect db (delete_event event_id db).2
  ∨ ∃ fs, (delete_event event_id db).2
          = (let T := event_removed event_id (flushed db) in
             mk_Session T T [] (autoflush db) fs (log db)).
Proof.
  pose proof (get_event_or_http_error_spec event_id db) as Hget.
  unfold delete_event, bind.
  destruct (get_event_by_id event_id db) as [[event|x] db1].
  - destruct Hget as (_ & -> & <- & _).
    pose proof (delete_rows_spec event db) as Hrows.
    destruct (delete_rows _ _ db) as [[[n i s|u s]|e] db']; [| |done]; simpl.
    + destruct Hrows as (_ & _ & _ & _ & Hnp). left.
      by apply effect_not_persisted.
    + destruct Hrows as (_ & _ & fs & ->). right. by exists fs.
  - destruct Hget as ((code & detail & ->) & ? & ? & ? & ?). left.
    by apply effect_none.
Qed.

Lemma session_inv_effect (db db' : Session) :
  effect db db' → session_inv db →
  session_inv db'
  ∧ user_events (committed db) ⊆ user_events (committed db').
Proof.
  intros [Hc Ht _ _|Hnp|e ->|event_id f T Hf -> Hc Ht _ _] Hinv.
  - split; [by eapply session_inv_same|]. by rewrite Hc.
  - split; [by eapply session_inv_not_persisted|].
    destruct Hnp as [-> _]. done.
  - split; [by apply session_inv_created|].
    destruct Hinv as (_ & <- & _). simpl.
    intros x Hx. apply elem_of_app. by left.
  - split.
    + pose proof (session_inv_updated event_id f [] db Hf Hinv) as H.
      revert H. by apply session_inv_same.
    + rewrite Hc. simpl. by destruct Hinv as (_ & <- & _).
Qed.

Lemma effect_pending (db db' : Session) :
  effect db db' →
  (autoflush db = true → deleted db = []) →
  autoflush db' = true → deleted db' = [].
Proof.
  intros [_ _ Hd Ha|(_ & Ha & Hd & _)|e ->|event_id f T _ _ _ _ Hd Ha] Hdb.
  - rewrite Ha, Hd. exact Hdb.
  - rewrite Ha. exact Hd.
  - done.
  - done.
Qed.

(** With [autoflush] on, a reachable session has no mark waiting between
    two calls: a query issued there has nothing to flush, which is why
    the reads of the model go straight to the transaction's view. *)
Lemma reachable_nothing_pending (db : Session) :
  reachable db → autoflush db = true → deleted db = [].
Proof.
  induction 1 as [us af fs|db db' _ IH Hstep]; [done|].
  destruct Hstep as [c db|fs db|db|af fs db]; try done.
  destruct c; simpl.
  - eapply effect_pending; [apply create_event_effect|done].
  - eapply effect_pending; [apply add_new_event_effect|done].
  - eapply effect_pending; [apply update_event_effect|done].
  - destruct (delete_event_effect event_id db) as [He|[fs ->]]; [|done].
    by eapply effect_pending.
  - done.
Qed.

Lemma reachable_session_inv (db : Session) : reachable db → session_inv db.
Proof.
  induction 1 as [us af fs|db db' _ IH Hstep].
  - unfold session_inv, every_event_owned; simpl.
    split_and!; [by intros e ?%elem_of_nil | done | done].
  - destruct Hstep as [c db|fs db|db|af fs db].
    + destruct c; simpl.
      * refine (proj1 (session_inv_effect _ _ _ IH)).
        apply create_event_effect.
      * refine (proj1 (session_inv_effect _ _ _ IH)).
        apply add_new_event_effect.
      * refine (proj1 (session_inv_effect _ _ _ IH)).
        apply update_event_effect.
      * destruct (delete_event_effect event_id db) as [He|[fs ->]].
        -- exact (proj1 (session_inv_effect _ _ He IH)).
        -- by apply session_inv_deleted.
      * done.
    + by apply (session_inv_same db).
    + apply (session_inv_not_persisted db); [apply not_persisted_rollback|done].
    + destruct IH as (Hown & _). by split_and!.
Qed.

(** C7: in every reachable session each committed event has the
    association row of its owner, hence at least one row that references
    it; and a call after which a committed association row is gone is
    the deletion of the event that row references, which is gone with
    it. *)
Theorem owner_association_invariant (db : Session) :
  reachable db →
  every_event_owned (committed db)
  ∧ (∀ e, e ∈ events (committed db) →
          ∃ ue, ue ∈ user_events (committed db)
                ∧ UserEvent.event_id ue = Event.id e)
  ∧ (∀ c ue,
       ue ∈ user_events (committed db) →
       ue ∉ user_events (committed (run c db)) →
       c = DeleteEvent (UserEvent.event_id ue)
       ∧ ∀ e, e ∈ events (committed (run c db)) →
              Event.id e ≠ UserEvent.event_id ue).
Proof.
  intros Hinv%reachable_session_inv.
  pose proof Hinv as (Hown & Hue & Hev). split_and!; [done| |].
  - intros e He. exists (owner_row e). split; [by apply Hown | done].
  - intros c ue Hin Hout.
    assert (∀ db', effect db db' → ue ∈ user_events (committed db')) as Hkept.
    { intros db' He. by apply (proj2 (session_inv_effect db db' He Hinv)). }
    destruct c; simpl in Hout.
    + destruct Hout. apply Hkept, create_event_effect.
    + destruct Hout. apply Hkept, add_new_event_effect.
    + destruct Hout. apply Hkept, update_event_effect.
    + simpl. destruct (delete_event_effect event_id db) as [He|[fs Hdb]].
      { destruct Hout. by apply Hkept. }
      rewrite Hdb in *. simpl in *.
      destruct (decide (UserEvent.event_id ue = event_id)) as [<-|Hne].
      * split; [done|]. by intros e [? _]%list_elem_of_filter.
      * destruct Hout. apply list_elem_of_filter. split; [done|].
        by rewrite Hue.
    + done.
Qed.

(** ** Sorting by start *)

Section sorting.
Context {A : Type} (key : A → datetime).

Lemma insert_by_Permutation (x : A) (l : list A) :
  insert_by key x l ≡ₚ x :: l.
Proof.
  induction l as [|y l IH]; simpl; [done|].
  destruct (datetime_lt (key y) (key x)); [|done].
  rewrite IH. apply perm_swap.
Qed.

Lemma sorted_Permutation (l : list A) : sorted key l ≡ₚ l.
Proof.
  induction l as [|x l IH]; simpl; [done|].
  by rewrite insert_by_Permutation, IH.
Qed.

Lemma key_le_trans (a b c : A) :
  key_le key a b → key_le key b c → key_le key a c.
Proof.
  unfold key_le. rewrite !datetime_lt_false. apply tuple_cmp_le_trans.
Qed.

Lemma insert_by_StronglySorted (x : A) (l : list A) :
  StronglySorted (key_le key) l → StronglySorted (key_le key) (insert_by key x l).
Proof.
  induction 1 as [|y l Hl IH Hy]; simpl.
  - repeat constructor.
  - destruct (datetime_lt (key y) (key x)) eqn:E.
    + constructor; [done|].
      rewrite insert_by_Permutation. constructor; [|done].
      by apply datetime_lt_asym.
    + constructor; [by constructor|].
      constructor; [done|].
      eapply Forall_impl; [exact Hy|].
      intros z Hz. by apply (key_le_trans x y z).
Qed.

Lemma sorted_StronglySorted (l : list A) :
  StronglySorted (key_le key) (sorted key l).
Proof.
  induction l as [|x l IH]; simpl; [constructor|].
  by apply insert_by_StronglySorted.
Qed.

End sorting.

Lemma alloc_spec (items : list Event.t) (h h' : Heap) (l : nat) :
  alloc items h = (l, h') →
  (l ∉ dom h) ∧ h' !! l = Some items ∧ ∀ k, k ∈ dom h → h' !! k = h !! k.
Proof.
  unfold alloc. intros [= <- <-]. pose proof (is_fresh (dom h)) as Hfresh.
  split_and!; [done | apply lookup_insert_eq | ].
  intros k Hk. apply lookup_insert_ne. by intros <-.
Qed.

(** C10: given a list, [sort_by_date] returns a new list that is a
    permutation of the given one with the starts in non-decreasing
    order; the given list, and every list there was, holds what it held
    before the call. *)
Theorem sort_by_date_sorted_permutation_fresh (h : Heap) (events : nat)
    (items : list Event.t) :
  h !! events = Some items →
  ∃ out h' result,
    sort_by_date events h = Some (out, h')
    ∧ h' !! out = Some result
    ∧ result ≡ₚ items
    ∧ StronglySorted start_le result
    ∧ out ≠ events
    ∧ h' !! events = Some items
    ∧ ∀ l, l ∈ dom h → h' !! l = h !! l.
Proof.
  intros Hitems. unfold sort_by_date. rewrite Hitems.
  cbn [mbind option_bind].
  destruct (alloc items h) as [temp h1] eqn:E1.
  destruct (alloc_spec _ _ _ _ E1) as (Hfresh1 & Hnew1 & Hold1).
  rewrite Hnew1. cbn [mbind option_bind].
  destruct (alloc (sorted Event.start items) h1) as [out h'] eqn:E2.
  destruct (alloc_spec _ _ _ _ E2) as (Hfresh2 & Hnew2 & Hold2).
  assert (∀ l, l ∈ dom h → l ∈ dom h1) as Hdom.
  { intros l Hl. apply elem_of_dom. rewrite Hold1 by done.
    by apply elem_of_dom. }
  assert (events ∈ dom h) as Hev by (apply elem_of_dom; by eexists).
  exists out, h', (sorted Event.start items). split_and!; try done.
  - apply sorted_Permutation.
  - apply sorted_StronglySorted.
  - intros ->. by apply Hfresh2, Hdom.
  - rewrite Hold2, Hold1 by auto. done.
  - intros l Hl. rewrite Hold2, Hold1 by auto. done.
Qed.

(** ** The theorems at concrete inputs *)

Lemma get_event_by_id_outcomes_witness :
  representable 1
  ∧ ∀ msg, (get_event_by_id 1 example_session).1
           ≠ Raise (MultipleResultsFound msg).
Proof.
  assert (representable 1) as Hr by (unfold representable; lia).
  split; [exact Hr|].
  exact (proj2 (get_event_by_id_outcomes example_session 1 Hr)).
Defined.

Lemma update_event_rejects_unordered_dates_witness :
  get_event_by_id 1 example_session = (Ok standup, example_session)
  ∧ update_event 1 {["start" := VDatetime eleven]} example_session
    = (Ok None, example_session).
Proof.
  split; [reflexivity|].
  apply (update_event_rejects_unordered_dates example_session 1 _ standup).
  - reflexivity.
  - left. vm_compute. discriminate.
  - vm_compute. discriminate.
Defined.


Lemma creation_paths_differ_on_unordered_dates_witness :
  datetime_lt ten nine = false
  ∧ (∃ event db',
       create_event (VStr "late") (VDatetime ten) (VDatetime nine) (VInt 1)
         (optional None) (optional None) example_session
       = (Ok event, db')
       ∧ Event.start event = ten ∧ Event.end_ event = nine
       ∧ event ∈ events (committed db')
       ∧ owner_row event ∈ user_events (committed db'))
  ∧ add_new_event
      (<["start" := VDatetime ten]> {["end" := VDatetime nine]})
      example_session
    = (Ok None, example_session).
Proof.
  split; [reflexivity|].
  apply (creation_paths_differ_on_unordered_dates example_session "late"
           ten nine 1 None None); reflexivity.
Defined.

Lemma owner_association_invariant_witness :
  reachable example_session
  ∧ every_event_owned (committed example_session).
Proof.
  assert (reachable example_session) as H.
  { apply (reachable_step empty_session).
    - apply reachable_init.
    - apply step_call. }
  split; [exact H|].
  exact (proj1 (owner_association_invariant example_session H)).
Defined.

Lemma sort_by_date_sorted_permutation_fresh_witness :
  example_heap !! 0%nat
  = Some [Event.mk 2 "review" eleven eleven None None 1; standup]
  ∧ ∃ out h' result,
      sort_by_date 0%nat example_heap = Some (out, h')
      ∧ h' !! out = Some result
      ∧ result ≡ₚ [Event.mk 2 "review" eleven eleven None None 1; standup]
      ∧ StronglySorted start_le result
      ∧ out ≠ 0%nat
      ∧ h' !! 0%nat
        = Some [Event.mk 2 "review" eleven eleven None None 1; standup]
      ∧ ∀ l, l ∈ dom example_heap → h' !! l = example_heap !! l.
Proof.
  split; [reflexivity|].
  apply (sort_by_date_sorted_permutation_fresh example_heap 0%nat).
  reflexivity.
Defined.

(** Refused values: the title column takes no integer and no None, the
    statement fails and the stored event keeps its title. *)
Example update_event_type_mismatch :
  update_event 1 {["title" := VInt 3]} example_session
  = (Ok None, example_session).
Proof. reflexivity. Qed.

Example update_event_constraint_violation :
  update_event 1 (<["title" := VNone]> {["content" := VStr "agenda"]})
    example_session
  = (Ok None, example_session).
Proof. reflexivity. Qed.

(** The order in which the example heap's list comes back. *)
Example sort_by_date_example :
  (sort_by_date 0%nat example_heap ≫= λ '(out, h'), h' !! out)
  = Some [standup; Event.mk 2 "review" eleven eleven None None 1].
Proof. reflexivity. Qed.

Example get_event_by_id_missing :
  get_event_by_id 7 example_session
  = (Raise (NoResultFound "Event ID does not exist. ID: 7"), example_session).
Proof. reflexivity. Qed.

(** A mapping with none of the five keys. *)
Example update_event_irrelevant_key :
  update_event 1 {["owner_id" := VInt 2]} example_session
  = (Ok None, example_session).
Proof. reflexivity. Qed.

(** Deletion without a failure, and with the commit failing. *)
Example delete_event_commits_both :
  (committed (delete_event 1 example_session).2)
  = mk_Tables [] [] [User.mk 1 "e@mail.com"].
Proof. reflexivity. Qed.

Example delete_event_failed_commit :
  let r := delete_event 1 (set_faults [false; false; true] example_session) in
  r.1 = Ok (TemplateResponse "event/eventview.html" 1 500)
  ∧ committed r.2 = committed example_session.
Proof. split; reflexivity. Qed.

(** A string against a timestamp: not comparable, hence not valid. *)
Example check_date_validation_mixed_types :
  check_date_validation (VStr "2024-01-01") (VDatetime nine) = Ok false.
Proof. reflexivity. Qed.

(** * Further properties *)

(** ** Viewing an event *)

(** X1: for an id the store can represent, [eventview] is decided by
    whether a row carries the id.  With no such row it raises HTTP 404;
    with one or more it returns the page of the instance of these rows,
    the first of them.  It never raises HTTP 500, and in both cases the
    session is left exactly as it was. *)
Theorem eventview_outcomes (db : Session) (event_id : Z) :
  representable event_id →
  match filter (λ e, Event.id e = event_id) (events (txn db)) with
  | [] => eventview event_id db
          = (Raise (HTTPException 404 "Event not found"), db)
  | event :: _ =>
      ∃ page, eventview event_id db = (Ok page, db)
              ∧ page_event page = event
              ∧ template page = "event/eventview.html"
  end
  ∧ (∀ detail, (eventview event_id db).1 ≠ Raise (HTTPException 500 detail))
  ∧ (eventview event_id db).2 = db.
Proof.
  intros _. unfold eventview, bind, get_event_or_http_error.
  rewrite get_event_by_id_eq.
  destruct (filter _ _) as [|e l]; unfold ret; simpl.
  - done.
  - split; [|done]. by eexists.
Qed.

Lemma date_eq (a b : datetime) :
  date a = date b ↔ year a = year b ∧ month a = month b ∧ day a = day b.
Proof.
  unfold date. split; [intros [= -> -> ->] | intros (-> & -> & ->)]; done.
Qed.

(** X2: on the page [eventview] returns, the start is always shown in
    the long format, and the end is shown as a bare time exactly when
    the event starts and ends on the same calendar day; otherwise the end
    takes the long format too. *)
Theorem eventview_formats (db db' : Session) (event_id : Z) (page : EventPage) :
  eventview event_id db = (Ok page, db') →
  Event.id (page_event page) = event_id
  ∧ page_event page ∈ events (txn db)
  ∧ start_format page = "%A, %d/%m/%Y %H:%M"
  ∧ (let s := Event.start (page_event page) in
     let e := Event.end_ (page_event page) in
     if decide (year s = year e ∧ month s = month e ∧ day s = day e)
     then end_format page = "%H:%M"
     else end_format page = start_format page).
Proof.
  unfold eventview, bind.
  pose proof (get_event_or_http_error_spec event_id db) as Hget.
  destruct (get_event_by_id event_id db) as [[event|x] db1].
  - destruct Hget as (_ & -> & Hid & Hin). unfold ret.
    intros [= <- <-]; simpl. split_and!; try done.
    destruct (decide (date _ = date _)) as [Hd|Hd];
      destruct (decide (_ ∧ _)) as [Hs|Hs]; try done.
    + destruct Hs. by apply date_eq.
    + destruct Hd. by apply date_eq.
  - destruct Hget as ((code & detail & ->) & _). done.
Qed.

(** ** Participants *)

Lemma participants_elem (db : Session) (event_id : Z) (address : string) :
  address ∈ get_participants_emails_by_event event_id db
  ↔ ∃ e ue u,
      e ∈ events (txn db) ∧ ue ∈ user_events (txn db) ∧ u ∈ users (txn db)
      ∧ Event.id e = event_id
      ∧ UserEvent.event_id ue = event_id
      ∧ User.id u = UserEvent.user_id ue
      ∧ User.email u = address.
Proof.
  unfold get_participants_emails_by_event. split.
  - intros (e & (ue & (u & Hu & Hinu)%list_elem_of_bind & Hinue)%list_elem_of_bind
             & Hine)%list_elem_of_bind.
    case_decide as H; [|by apply elem_of_nil in Hu].
    destruct H as (H1 & H2 & H3).
    apply list_elem_of_singleton in Hu as ->.
    exists e, ue, u. split_and!; congruence.
  - intros (e & ue & u & He & Hue & Hu & H1 & H2 & H3 & <-).
    apply list_elem_of_bind. exists e. split; [|done].
    apply list_elem_of_bind. exists ue. split; [|done].
    apply list_elem_of_bind. exists u. split; [|done].
    rewrite decide_True by (split_and!; congruence). by left.
Qed.

(** X3: an address is among the participants of an event exactly when
    an event row carries the id, an association row references the id,
    and a user of that row has the address; without an event row of the
    id the list is empty, whatever association rows reference it. *)
Theorem participants_characterised (db : Session) (event_id : Z) :
  (∀ address,
     address ∈ get_participants_emails_by_event event_id db
     ↔ ∃ e ue u,
         e ∈ events (txn db) ∧ ue ∈ user_events (txn db) ∧ u ∈ users (txn db)
         ∧ Event.id e = event_id
         ∧ UserEvent.event_id ue = event_id
         ∧ User.id u = UserEvent.user_id ue
         ∧ User.email u = address)
  ∧ ((∀ e, e ∈ events (txn db) → Event.id e ≠ event_id) →
     get_participants_emails_by_event event_id db = []).
Proof.
  split; [apply participants_elem|].
  intros Hno.
  destruct (get_participants_emails_by_event event_id db) as [|m l] eqn:E;
    [done|].
  assert (m ∈ get_participants_emails_by_event event_id db) as Hin
    by (rewrite E; by left).
  apply participants_elem in Hin as (e & _ & _ & He & _ & _ & Hid & _).
  by destruct (Hno e He).
Qed.

Lemma participants_nil (db : Session) (event_id : Z) :
  (∀ e, e ∈ events (txn db) → Event.id e ≠ event_id) →
  get_participants_emails_by_event event_id db = [].
Proof.
  intros Hno. destruct (get_participants_emails_by_event event_id db)
    as [|m l] eqn:E; [done|].
  assert (m ∈ get_participants_emails_by_event event_id db) as Hin
    by (rewrite E; by left).
  apply participants_elem in Hin as (e & _ & _ & He & _ & _ & Hid & _).
  by destruct (Hno e He).
Qed.

(** ** Updates at the edges *)

(** X5: an event whose stored start is not before its stored end
    refuses every update that names neither start nor end: the call
    returns None and the session stays as it was.  Such an event, which
    [create_event] accepts, can have no other field changed until its
    dates are. *)
Theorem update_event_unordered_stored_dates (db : Session) (event_id : Z)
    (event : gmap string PyVal) (old_event : Event.t) :
  get_event_by_id event_id db = (Ok old_event, db) →
  datetime_lt (Event.start old_event) (Event.end_ old_event) = false →
  event !! "start" = None → event !! "end" = None →
  update_event event_id event db = (Ok None, db).
Proof.
  intros Hget Hlt Hs He.
  destruct (decide (get_items_that_can_be_updated event = ∅)) as [Hempty|Hne].
  { unfold update_event. by rewrite bool_decide_eq_true_2. }
  apply (update_event_rejects _ _ _ _ Hget Hne).
  unfold is_it_possible_to_change_dates, is_date_before.
  rewrite !get_items_lookup.
  rewrite !decide_True by (unfold updatable; repeat constructor).
  rewrite Hs, He. simpl. by rewrite Hlt.
Qed.

(** ** What a successful update wrote *)

Lemma assignments_fields (event : gmap string PyVal) (f : Event.t → Event.t) (e : Event.t) :
  assignments (get_items_that_can_be_updated event) = Some f →
  assigned as_text (event !! "title") (Event.title e) (Event.title (f e))
  ∧ assigned as_timestamp (event !! "start") (Event.start e) (Event.start (f e))
  ∧ assigned as_timestamp (event !! "end") (Event.end_ e) (Event.end_ (f e))
  ∧ assigned as_optional_text (event !! "content")
      (Event.content e) (Event.content (f e))
  ∧ assigned as_optional_text (event !! "location")
      (Event.location e) (Event.location (f e)).
Proof.
  unfold assignments. case_bool_decide; [|done].
  unfold set_clauses, Event_columns. cbn [foldr].
  assert (get_items_that_can_be_updated event !! "id" = None) as ->.
  { rewrite get_items_lookup. apply decide_False.
    intros Hin%list_elem_of_In. simpl in Hin. intuition discriminate. }
  assert (get_items_that_can_be_updated event !! "owner_id" = None) as ->.
  { rewrite get_items_lookup. apply decide_False.
    intros Hin%list_elem_of_In. simpl in Hin. intuition discriminate. }
  rewrite !get_items_lookup.
  rewrite !decide_True by (unfold updatable; repeat constructor).
  unfold assigned.
  destruct (event !! "title") as [[]|]; simpl; try done;
  destruct (event !! "start") as [[]|]; simpl; try done;
  destruct (event !! "end") as [[]|]; simpl; try done;
  destruct (event !! "content") as [[]|]; simpl; try done;
  destruct (event !! "location") as [[]|]; simpl; try done;
  intros [= <-]; done.
Qed.

Lemma filter_id_without_events_comm (event_id : Z) (gone l : list Event.t) :
  filter (λ e, Event.id e = event_id) (without_events gone l)
  = without_events gone (filter (λ e, Event.id e = event_id) l).
Proof.
  unfold without_events. rewrite !list_filter_filter.
  apply list_filter_iff. intros e. tauto.
Qed.

Lemma without_events_same_id (gone l : list Event.t) (k : Z) :
  Forall (λ e, Event.id e = k) l →
  without_events gone l = l ∨ without_events gone l = [].
Proof.
  intros Hall. unfold without_events.
  destruct (decide (k ∈ Event.id <$> gone)) as [Hin|Hout].
  - right. induction Hall as [|a l Ha _ IH]; [done|].
    rewrite filter_cons, decide_False; [done|]. rewrite Ha. tauto.
  - left. induction Hall as [|a l Ha _ IH]; [done|].
    rewrite filter_cons, decide_True by (by rewrite Ha). by rewrite IH.
Qed.

Lemma Forall_filter_id (event_id : Z) (l : list Event.t) :
  Forall (λ e, Event.id e = event_id) (filter (λ e, Event.id e = event_id) l).
Proof. apply Forall_forall. by intros e [? _]%list_elem_of_filter. Qed.

(** What [update_event] leaves when its lookup found [old_event]: the
    session with its committed tables untouched, or the session of a
    statement and a commit that both went through. *)
Lemma update_event_found (db : Session) (event_id : Z)
    (event : gmap string PyVal) (old_event : Event.t) :
  get_event_by_id event_id db = (Ok old_event, db) →
  get_items_that_can_be_updated event ≠ ∅ →
  (∃ db', update_event event_id event db = (Ok None, db')
          ∧ committed db' = committed db)
  ∨ (∃ f fs db1,
       assignments (get_items_that_can_be_updated event) = Some f
       ∧ is_it_possible_to_change_dates
           old_event (get_items_that_can_be_updated event) = Ok true
       ∧ db1 = (let T := mk_Tables (updated_events event_id f db)
                           (user_events (txn db)) (users (txn db)) in
                mk_Session T T [] (autoflush db) fs (log db))
       ∧ update_event event_id event db
         = match get_event_by_id event_id db1 with
           | (Ok e, db2) => (Ok (Some e), db2)
           | (Raise e, db2) => (Raise e, db2)
           end).
Proof.
  intros Hget Hne.
  destruct (decide (is_it_possible_to_change_dates old_event
                      (get_items_that_can_be_updated event) = Ok true))
    as [Hok|Hbad].
  2:{ left. exists db. by rewrite (update_event_rejects _ _ _ _ Hget Hne Hbad). }
  rewrite (update_event_valid _ _ _ _ Hget Hne Hok).
  pose proof (persist_update_spec event_id
                (get_items_that_can_be_updated event) db) as Hspec.
  destruct (persist_update _ _ db) as [[[]|x] db1].
  - destruct Hspec as (f & fs & Ea & ->).
    { intros f e. apply assignments_keep_keys. }
    right. eexists f, fs, _. split_and!; done.
  - destruct Hspec as (-> & Hc & _).
    { intros f e. apply assignments_keep_keys. }
    left. by exists db1.
Qed.

Lemma get_event_by_id_raises (event_id : Z) (db db' : Session) (x : Exn) :
  get_event_by_id event_id db = (Raise x, db') →
  ∃ msg, x = NoResultFound msg.
Proof.
  rewrite get_event_by_id_eq.
  destruct (filter _ _) as [|e l]; intros [= <- _]; eauto.
Qed.

(** X4: with a mapping that names at least one updatable key and an id
    the store can represent, [update_event] on an id no row carries
    raises HTTP 404 and leaves the session as it was; on an id that rows
    carry, however many, it raises no HTTP error at all. *)
Theorem update_event_lookup_errors (db : Session) (event_id : Z)
    (event : gmap string PyVal) :
  representable event_id →
  get_items_that_can_be_updated event ≠ ∅ →
  match filter (λ e, Event.id e = event_id) (events (txn db)) with
  | [] => update_event event_id event db
          = (Raise (HTTPException 404 "Event not found"), db)
  | _ :: _ =>
      ∀ code detail,
        (update_event event_id event db).1 ≠ Raise (HTTPException code detail)
  end.
Proof.
  intros _ Hne.
  pose proof (get_event_by_id_eq event_id db) as Hget.
  destruct (filter _ _) as [|e l] eqn:E.
  - unfold update_event. rewrite bool_decide_eq_false_2 by done.
    unfold bind at 1. unfold get_event_or_http_error. by rewrite Hget.
  - intros code detail.
    destruct (update_event_found _ _ _ _ Hget Hne)
      as [(db' & -> & _)|(f & fs & db1 & _ & _ & _ & ->)]; [done|].
    destruct (get_event_by_id event_id db1) as [[e'|x] db2] eqn:Eg; [done|].
    apply get_event_by_id_raises in Eg as [m ->]. done.
Qed.

(** What is behind an event returned by [update_event]. *)
Lemma update_event_Some (db db' : Session) (event_id : Z)
    (event : gmap string PyVal) (new_event : Event.t) :
  update_event event_id event db = (Ok (Some new_event), db') →
  ∃ old_event f fs,
    get_event_by_id event_id db = (Ok old_event, db)
    ∧ Event.id old_event = event_id
    ∧ assignments (get_items_that_can_be_updated event) = Some f
    ∧ is_it_possible_to_change_dates
        old_event (get_items_that_can_be_updated event) = Ok true
    ∧ new_event = f old_event
    ∧ db' = (let T := mk_Tables (updated_events event_id f db)
                        (user_events (txn db)) (users (txn db)) in
             mk_Session T T [] (autoflush db) fs (log db))
    ∧ get_event_by_id event_id db' = (Ok new_event, db').
Proof.
  intros Hres.
  destruct (decide (get_items_that_can_be_updated event = ∅)) as [He|Hne].
  { unfold update_event in Hres.
    by rewrite bool_decide_eq_true_2 in Hres. }
  pose proof (get_event_or_http_error_spec event_id db) as Hget.
  destruct (get_event_by_id event_id db) as [[old_event|x] db1] eqn:Eg.
  2:{ destruct Hget as ((code & detail & Hget) & _).
      unfold update_event in Hres.
      rewrite bool_decide_eq_false_2 in Hres by done.
      unfold bind at 1 in Hres. by rewrite Hget in Hres. }
  destruct Hget as ([= ->] & _ & Hid & _). rename Eg into Hget.
  destruct (update_event_found _ _ _ _ Hget Hne)
    as [(db2 & Hu & _)|(f & fs & db2 & Ea & Hok & -> & Hu)];
    rewrite Hu in Hres; [done|].
  match type of Hres with
  | context [get_event_by_id event_id ?s] =>
      destruct (get_event_by_id event_id s) as [[e|x] db3] eqn:Eback;
      [|done]
  end.
  injection Hres as -> ->.
  destruct (get_event_by_id_Ok _ _ _ _ Eback) as [-> Hrow]. simpl in Hrow.
  unfold updated_events in Hrow.
  rewrite filter_id_update in Hrow
    by (intros e; by eapply assignments_keep_keys).
  rewrite filter_id_without_events_comm in Hrow.
  destruct (get_event_by_id_Ok _ _ _ _ Hget) as [_ Hold].
  destruct (without_events_same_id (deleted db)
              (filter (λ e, Event.id e = event_id) (events (txn db))) event_id
              (Forall_filter_id _ _)) as [Hkept|Hkept];
    rewrite Hkept in Hrow; [|done].
  assert (new_event = f old_event) as Hnew
    by (destruct (filter _ _); simpl in *; by simplify_eq).
  exists old_event, f, fs. split_and!; done.
Qed.

(** X6: when [update_event] returns an event, that event is the stored
    one with each named field replaced by the value given for it, as its
    column reads it, and every other field, the id and the owner as they
    were; its start is strictly before its end; it is what
    [get_event_by_id] now returns, and it is committed. *)
Theorem update_event_returns_assigned_event (db db' : Session) (event_id : Z)
    (event : gmap string PyVal) (new_event : Event.t) :
  update_event event_id event db = (Ok (Some new_event), db') →
  ∃ old_event,
    get_event_by_id event_id db = (Ok old_event, db)
    ∧ Event.id new_event = event_id
    ∧ Event.owner_id new_event = Event.owner_id old_event
    ∧ assigned as_text (event !! "title")
        (Event.title old_event) (Event.title new_event)
    ∧ assigned as_timestamp (event !! "start")
        (Event.start old_event) (Event.start new_event)
    ∧ assigned as_timestamp (event !! "end")
        (Event.end_ old_event) (Event.end_ new_event)
    ∧ assigned as_optional_text (event !! "content")
        (Event.content old_event) (Event.content new_event)
    ∧ assigned as_optional_text (event !! "location")
        (Event.location old_event) (Event.location new_event)
    ∧ datetime_lt (Event.start new_event) (Event.end_ new_event) = true
    ∧ get_event_by_id event_id db' = (Ok new_event, db')
    ∧ new_event ∈ events (committed db').
Proof.
  intros (old_event & f & fs & Hget & Hid & Ea & Hok & -> & -> & Hback)
    %update_event_Some.
  destruct (assignments_keep_keys event f old_event Ea) as [Hfid Hfown].
  destruct (assignments_fields event f old_event Ea)
    as (Ht & Hs & He & Hc & Hl).
  exists old_event. split_and!; try done; try congruence.
  - unfold is_it_possible_to_change_dates, is_date_before in Hok.
    rewrite !get_items_lookup in Hok.
    rewrite !decide_True in Hok by (unfold updatable; repeat constructor).
    unfold assigned in Hs, He.
    destruct (event !! "start") as [[]|], (event !! "end") as [[]|];
      simpl in *; simplify_eq; congruence.
  - simpl.
    assert (f old_event ∈ filter (λ e, Event.id e = event_id)
              (updated_events event_id f db)) as Hin.
    { apply get_event_by_id_Ok in Hback as [_ Hr]. simpl in Hr.
      by apply head_Some_elem_of in Hr. }
    by apply list_elem_of_filter in Hin as [_ ?].
Qed.

Lemma update_event_committed (db : Session) (event_id : Z) (event : gmap string PyVal) :
  committed (update_event event_id event db).2 = committed db
  ∨ ∃ f, (∀ e, Event.id (f e) = Event.id e
               ∧ Event.owner_id (f e) = Event.owner_id e)
         ∧ committed (update_event event_id event db).2
           = mk_Tables (updated_events event_id f db)
               (user_events (txn db)) (users (txn db)).
Proof.
  destruct (decide (get_items_that_can_be_updated event = ∅)) as [He|Hne].
  { left. unfold update_event. by rewrite bool_decide_eq_true_2. }
  pose proof (get_event_or_http_error_spec event_id db) as Hget.
  destruct (get_event_by_id event_id db) as [[old_event|x] db1] eqn:Eg.
  2:{ destruct Hget as ((code & detail & Hget) & Hc & _). left.
      unfold update_event. rewrite bool_decide_eq_false_2 by done.
      unfold bind at 1. by rewrite Hget. }
  destruct Hget as ([= ->] & _). rename Eg into Hget.
  destruct (update_event_found _ _ _ _ Hget Hne)
    as [(db2 & -> & Hc)|(f & fs & db2 & Ea & Hok & -> & ->)]; [by left|].
  right. exists f. split; [intros e; by eapply assignments_keep_keys|].
  match goal with
  | |- context [get_event_by_id event_id ?s] =>
      pose proof (get_event_by_id_tables event_id s) as (Hc & _);
      destruct (get_event_by_id event_id s) as [[]?]
  end; exact Hc.
Qed.

(** X7: on a session with nothing uncommitted, [update_event] adds no
    row and removes none, whatever it returns or raises: the association
    rows and the users are the same, the events keep their ids and their
    owners in the same order, and every event of another id is
    unchanged. *)
Theorem update_event_frame (db : Session) (event_id : Z) (event : gmap string PyVal) :
  clean db →
  let db' := (update_event event_id event db).2 in
  user_events (committed db') = user_events (committed db)
  ∧ users (committed db') = users (committed db)
  ∧ Event.id <$> events (committed db') = Event.id <$> events (committed db)
  ∧ Event.owner_id <$> events (committed db')
    = Event.owner_id <$> events (committed db)
  ∧ filter (λ e, Event.id e ≠ event_id) (events (committed db'))
    = filter (λ e, Event.id e ≠ event_id) (events (committed db)).
Proof.
  intros [Htxn Hdel]. simpl.
  destruct (update_event_committed db event_id event) as [->|(f & Hf & ->)];
    [done|].
  unfold updated_events. rewrite Hdel, without_events_nil, Htxn. simpl.
  split_and!; try done.
  - rewrite <- list_fmap_compose. apply list_fmap_ext. intros i e _. simpl.
    case_decide; [apply Hf | done].
  - rewrite <- list_fmap_compose. apply list_fmap_ext. intros i e _. simpl.
    case_decide; [apply Hf | done].
  - induction (events (committed db)) as [|a l IH]; [done|].
    rewrite fmap_cons, !filter_cons.
    destruct (decide (Event.id a = event_id)) as [Ha|Ha].
    + rewrite decide_False by (destruct (Hf a) as [-> _]; tauto).
      rewrite decide_False by tauto. done.
    + rewrite !decide_True by done. by rewrite IH.
Qed.

(** ** After a deletion *)

Lemma delete_event_redirected (db db' : Session) (event_id : Z) (url : string) (code : Z) :
  delete_event event_id db = (Ok (RedirectResponse url code), db') →
  ∃ fs, db' = (let T := event_removed event_id (flushed db) in
               mk_Session T T [] (autoflush db) fs (log db)).
Proof.
  pose proof (get_event_or_http_error_spec event_id db) as Hget.
  unfold delete_event, bind.
  destruct (get_event_by_id event_id db) as [[event|x] db1].
  - destruct Hget as (_ & -> & <- & _).
    pose proof (delete_rows_spec event db) as Hrows.
    destruct (delete_rows _ _ db) as [[[n i s|u s]|e] db2]; [done| |done].
    destruct Hrows as (_ & _ & fs & ->). intros [= _ _ <-]. by exists fs.
  - destruct Hget as ((c & d & ->) & _). done.
Qed.

Lemma filter_id_removed (event_id : Z) (l : list Event.t) :
  filter (λ e, Event.id e = event_id) (filter (λ e, Event.id e ≠ event_id) l)
  = [].
Proof.
  induction l as [|a l IH]; [done|].
  rewrite filter_cons. case_decide; [|done].
  rewrite filter_cons, decide_False by done. done.
Qed.

Lemma filter_id_other (event_id other : Z) (l : list Event.t) :
  other ≠ event_id →
  filter (λ e, Event.id e = other) (filter (λ e, Event.id e ≠ event_id) l)
  = filter (λ e, Event.id e = other) l.
Proof.
  intros Hne. rewrite list_filter_filter. apply list_filter_iff.
  intros e. split; [tauto|]. intros ->. done.
Qed.

(** X8: once [delete_event] has redirected, the id is gone for every
    reader of the session: [get_event_by_id] raises NoResultFound, the
    participants are none, [eventview] raises HTTP 404, a second
    [delete_event] raises HTTP 404 and deletes nothing more, and so does
    an [update_event] that names an updatable key. *)
Theorem delete_event_then_not_found (db db' : Session) (event_id : Z)
    (url : string) (code : Z) :
  delete_event event_id db = (Ok (RedirectResponse url code), db') →
  get_event_by_id event_id db'
  = (Raise (NoResultFound ("Event ID does not exist. ID: " +:+ pretty event_id)),
     db')
  ∧ get_participants_emails_by_event event_id db' = []
  ∧ eventview event_id db' = (Raise (HTTPException 404 "Event not found"), db')
  ∧ delete_event event_id db'
    = (Raise (HTTPException 404 "Event not found"), db')
  ∧ ∀ event, get_items_that_can_be_updated event ≠ ∅ →
             update_event event_id event db'
             = (Raise (HTTPException 404 "Event not found"), db').
Proof.
  intros [fs ->]%delete_event_redirected.
  split_and!.
  - unfold get_event_by_id. simpl. by rewrite filter_id_removed.
  - apply participants_nil. simpl. intros e [? _]%list_elem_of_filter. done.
  - unfold eventview, bind, get_event_or_http_error, get_event_by_id. simpl.
    by rewrite filter_id_removed.
  - unfold delete_event, bind, get_event_or_http_error, get_event_by_id. simpl.
    by rewrite filter_id_removed.
  - intros event Hne. unfold update_event.
    rewrite bool_decide_eq_false_2 by done.
    unfold bind at 1. unfold get_event_or_http_error, get_event_by_id. simpl.
    by rewrite filter_id_removed.
Qed.

Lemma bind_filter {A B} (P : A → Prop) `{!∀ x, Decision (P x)}
    (f : A → list B) (l : list A) :
  (∀ x, ¬ P x → f x = []) → filter P l ≫= f = l ≫= f.
Proof.
  intros Hf. induction l as [|a l IH]; [done|].
  rewrite filter_cons. case_decide.
  - by rewrite !bind_cons, IH.
  - by rewrite bind_cons, Hf, IH.
Qed.

Lemma bind_all_nil {A B} (f : A → list B) (l : list A) :
  (∀ x, f x = []) → l ≫= f = [].
Proof.
  intros Hf. induction l as [|a l IH]; [done|].
  by rewrite bind_cons, Hf, IH.
Qed.

(** X9: on a session with nothing uncommitted, a [delete_event] that
    redirects leaves every other id as it was: its lookup gives the same
    result and its participants are the same, in the same order, and the
    users are untouched. *)
Theorem delete_event_frame (db db' : Session) (event_id other : Z)
    (url : string) (code : Z) :
  clean db → other ≠ event_id →
  delete_event event_id db = (Ok (RedirectResponse url code), db') →
  (get_event_by_id other db').1 = (get_event_by_id other db).1
  ∧ get_participants_emails_by_event other db'
    = get_participants_emails_by_event other db
  ∧ users (committed db') = users (committed db).
Proof.
  intros [Htxn Hdel] Hne [fs ->]%delete_event_redirected.
  unfold flushed. rewrite Hdel, without_events_nil.
  split_and!.
  - rewrite !get_event_by_id_eq. simpl. rewrite filter_id_other by done.
    by destruct (filter _ _) as [|e l].
  - unfold get_participants_emails_by_event. simpl.
    rewrite (bind_filter (λ e, Event.id e ≠ event_id)).
    + apply list_bind_ext; [|done]. intros e.
      rewrite (bind_filter (λ ue, UserEvent.event_id ue ≠ event_id)); [done|].
      intros ue Hue%dec_stable. apply bind_all_nil. intros u.
      rewrite decide_False; [done|]. intros (? & ? & ?). congruence.
    + intros e He%dec_stable. apply bind_all_nil. intros ue.
      apply bind_all_nil. intros u.
      rewrite decide_False; [done|]. intros (? & ? & ?). congruence.
  - simpl. by rewrite Htxn.
Qed.

(** ** After a creation *)

Lemma filter_none {A} (P : A → Prop) `{!∀ x, Decision (P x)} (l : list A) :
  (∀ x, x ∈ l → ¬ P x) → filter P l = [].
Proof.
  induction l as [|a l IH]; [done|]. intros Hl.
  rewrite filter_cons, decide_False by (apply Hl; by left).
  apply IH. intros x Hx. apply Hl. by right.
Qed.

Lemma filter_all {A} (P : A → Prop) `{!∀ x, Decision (P x)} (l : list A) :
  (∀ x, x ∈ l → P x) → filter P l = l.
Proof.
  induction l as [|a l IH]; [done|]. intros Hl.
  rewrite filter_cons, decide_True by (apply Hl; by left).
  f_equal. apply IH. intros x Hx. apply Hl. by right.
Qed.

Lemma filter_id_created (e : Event.t) (db : Session) :
  Event.id e = next_id (events (txn db)) →
  filter (λ x, Event.id x = Event.id e) (events (txn (created e db))) = [e].
Proof.
  intros Hid. simpl. rewrite filter_app.
  replace (filter _ (without_events _ _)) with (@nil Event.t).
  - simpl. rewrite filter_cons, decide_True by done. done.
  - symmetry. apply filter_none.
    intros x Hx%elem_of_without_events%next_id_fresh. lia.
Qed.

Lemma get_event_by_id_created (e : Event.t) (db : Session) :
  Event.id e = next_id (events (txn db)) →
  get_event_by_id (Event.id e) (created e db) = (Ok e, created e db).
Proof.
  intros Hid. unfold get_event_by_id. by rewrite filter_id_created.
Qed.

(** X10: the event [create_event] returns is the one the session then
    finds under its id: [get_event_by_id] returns it, [eventview] shows
    it, and every user whose id is the owner's has their address among
    its participants. *)
Theorem create_event_then_found (db : Session) (title : string)
    (start end_ : datetime) (owner_id : Z) (content location : option string) :
  ∃ event db',
    create_event (VStr title) (VDatetime start) (VDatetime end_) (VInt owner_id)
      (optional content) (optional location) db = (Ok event, db')
    ∧ get_event_by_id (Event.id event) db' = (Ok event, db')
    ∧ (∃ page, eventview (Event.id event) db' = (Ok page, db')
               ∧ page_event page = event)
    ∧ (∀ u, u ∈ users (txn db) → User.id u = owner_id →
            User.email u ∈ get_participants_emails_by_event (Event.id event) db').
Proof.
  eexists _, _. split; [apply create_event_typed|].
  cbv zeta.
  set (event := Event.mk _ _ _ _ _ _ _).
  assert (Event.id event = next_id (events (txn db))) as Hid by done.
  split_and!.
  - by apply get_event_by_id_created.
  - unfold eventview, bind, get_event_or_http_error, try_except.
    rewrite get_event_by_id_created by done. eexists. split; [done|done].
  - intros u Hu Ho. apply participants_elem.
    exists event, (owner_row event), u. simpl.
    split_and!; try done; apply elem_of_app; right; by left.
Qed.

(** X11: on a session with nothing uncommitted and no association row
    under the next id, creating an event and then deleting it, when the
    deletion redirects, gives back the committed tables one started
    from. *)
Theorem create_then_delete_restores (db db1 db2 : Session) (title : string)
    (start end_ : datetime) (owner_id : Z) (content location : option string)
    (event : Event.t) (url : string) (code : Z) :
  clean db →
  (∀ ue, ue ∈ user_events (txn db) →
         UserEvent.event_id ue ≠ next_id (events (txn db))) →
  create_event (VStr title) (VDatetime start) (VDatetime end_) (VInt owner_id)
    (optional content) (optional location) db = (Ok event, db1) →
  delete_event (Event.id event) db1 = (Ok (RedirectResponse url code), db2) →
  committed db2 = committed db ∧ txn db2 = committed db ∧ deleted db2 = [].
Proof.
  intros [Htxn Hdel] Horphan Hcreate Hdelete.
  rewrite create_event_typed in Hcreate. cbv zeta in Hcreate.
  injection Hcreate as <- <-.
  apply delete_event_redirected in Hdelete as [fs ->]. cbn [Event.id].
  assert (event_removed (next_id (events (txn db)))
            (flushed (created
               (Event.mk (next_id (events (txn db))) title start end_ content
                  location owner_id) db)) = txn db) as ->; [|by rewrite Htxn].
  unfold flushed, created, event_removed, owner_row. simpl.
  rewrite Hdel, !without_events_nil. destruct (txn db) as [es ues us]. simpl in *.
  f_equal.
  - rewrite filter_app. simpl. rewrite filter_cons, decide_False by (simpl; lia).
    rewrite filter_nil, app_nil_r.
    apply filter_all. intros x Hx%next_id_fresh. lia.
  - rewrite filter_app. simpl. rewrite filter_cons, decide_False by (simpl; lia).
    rewrite filter_nil, app_nil_r.
    apply filter_all. intros ue Hue. by apply Horphan.
Qed.

Lemma Event_kwargs_columns (k : string) :
  k ∈ Event_kwargs → k ∈ Event_columns.
Proof.
  unfold Event_kwargs, Event_columns. rewrite !elem_of_cons, !elem_of_nil.
  tauto.
Qed.

Lemma check_date_validation_datetime (a b : datetime) :
  check_date_validation (VDatetime a) (VDatetime b) = Ok (datetime_lt a b).
Proof. done. Qed.

(** X12: given a dictionary with the six keyword arguments well typed
    and a start strictly before the end, [add_new_event] does what
    [create_event] does with the same values: both return the same
    event and leave the same session. *)
Theorem add_new_event_agrees_with_create_event (db : Session)
    (values : gmap string PyVal) (title : string) (start end_ : datetime)
    (owner_id : Z) (content location : option string) :
  map_Forall (λ k _, k ∈ Event_kwargs) values →
  values !! "title" = Some (VStr title) →
  values !! "start" = Some (VDatetime start) →
  values !! "end" = Some (VDatetime end_) →
  values !! "owner_id" = Some (VInt owner_id) →
  default VNone (values !! "content") = optional content →
  default VNone (values !! "location") = optional location →
  datetime_lt start end_ = true →
  ∃ event db',
    create_event (VStr title) (VDatetime start) (VDatetime end_) (VInt owner_id)
      (optional content) (optional location) db = (Ok event, db')
    ∧ add_new_event values db = (Ok (Some event), db').
Proof.
  intros Hkeys Ht Hs He Ho Hc Hl Hlt.
  eexists _, _. split; [apply create_event_typed|]. cbv zeta.
  set (event := Event.mk _ _ _ _ _ _ _).
  pose proof (create_pair_spec values (VInt owner_id) db Ho) as H.
  assert (new_Event values (next_id (events (txn db))) = Some event) as Hnew.
  { unfold new_Event. rewrite Ht, Hs, He, Ho, Hc, Hl. simpl.
    by destruct content, location. }
  assert (create_model_Event values db
          = (let* _ := save (λ t, with_events (events t ++ [event]) t) in
             ret event) db) as Hcm.
  { assert (values !! "id" = None) as Hnoid.
    { destruct (values !! "id") as [v|] eqn:Eid; [|done].
      apply Hkeys in Eid. unfold Event_kwargs in Eid.
      rewrite !elem_of_cons, elem_of_nil in Eid.
      destruct Eid as [?|[?|[?|[?|[?|[?|[]]]]]]]; discriminate. }
    unfold create_model_Event, primary_key.
    rewrite bool_decide_eq_true_2, Hnoid; [simpl; by rewrite Hnew|].
    intros k v Hk. by apply Event_kwargs_columns, (Hkeys k v). }
  unfold add_new_event, getitem. rewrite Hs, He.
  unfold bind at 1. unfold lift at 1. unfold bind at 1. unfold lift at 1.
  unfold bind at 1. unfold lift at 1.
  rewrite check_date_validation_datetime, Hlt. change (negb true) with false. cbv iota.
  unfold try_except. unfold bind at 1. rewrite Hcm.
  unfold bind at 1 in H. rewrite Hcm in H.
  rewrite Ho. revert H. unfold_m; unfold_store; simpl.
  intros [_ ->]. done.
Qed.

(** X13: a dictionary without ['start'], or with it and without ['end'],
    makes [add_new_event] raise [KeyError] on that key before anything
    is validated or written. *)
Theorem add_new_event_missing_date_key (db : Session) (values : gmap string PyVal) :
  values !! "start" = None ∨ values !! "end" = None →
  ∃ key, (key = "start" ∨ key = "end")
         ∧ values !! key = None
         ∧ add_new_event values db = (Raise (KeyError key), db).
Proof.
  intros Hmissing. unfold add_new_event, getitem.
  destruct (values !! "start") as [s|] eqn:Hs.
  - destruct Hmissing as [|He]; [done|]. exists "end".
    split_and!; [by right|done|]. by rewrite He.
  - exists "start". split_and!; [by left|done|done].
Qed.

(** X14: when the dates are in order but the dictionary has a key that
    is no attribute of [Event], that is no column of its table (the id
    included), the [TypeError] of the constructor is caught:
    [add_new_event] logs the exception, returns None and writes
    nothing. *)
Theorem add_new_event_unknown_key (db : Session) (values : gmap string PyVal)
    (start end_ : PyVal) (key : string) (v : PyVal) :
  values !! "start" = Some start → values !! "end" = Some end_ →
  check_date_validation start end_ = Ok true →
  values !! key = Some v → key ∉ Event_columns →
  add_new_event values db = (Ok None, add_log (Exception TypeError) db).
Proof.
  intros Hs He Hv Hk Hnot. unfold add_new_event, getitem. rewrite Hs, He.
  unfold bind at 1. unfold lift at 1. unfold bind at 1. unfold lift at 1.
  unfold bind at 1. unfold lift at 1. rewrite Hv. change (negb true) with false. cbv iota.
  unfold try_except, bind at 1, create_model_Event.
  rewrite bool_decide_eq_false_2; [done|].
  intros Hall. apply Hnot. by apply (Hall key v).
Qed.

(** ** Ids are never shared *)

Ltac solve_nothing_added :=
  split; [done|];
  first [ by right
        | left; first [ done
                      | apply sublist_filter
                      | etrans; [apply sublist_filter | apply sublist_filter] ] ].

Lemma persist_update_nothing_added (event_id : Z) (values : gmap string PyVal)
    (db : Session) :
  match persist_update event_id values db with
  | (Raise _, db') => nothing_added db db'
  | (Ok _, _) => True
  end.
Proof.
  unfold persist_update, nothing_added. unfold_store. unfold_m.
  destruct (assignments values) as [f|].
  2:{ destruct db as [c t d [] fs lg], d as [|d0 d], fs as [|[] fs]; simpl;
        destruct t; simpl; solve_nothing_added. }
  destruct db as [c t d af fs lg], t as [es ues us]; simpl.
  destruct af, d as [|d0 d], fs as [|[] [|[] [|[] fs]]]; simpl.
  all: try done.
  all: solve_nothing_added.
Qed.

Lemma delete_rows_nothing_added (event : Event.t) (event_id : Z) (db : Session) :
  match delete_rows event event_id db with
  | (Ok (TemplateResponse _ _ _), db') => nothing_added db db'
  | _ => True
  end.
Proof.
  unfold delete_rows, nothing_added. unfold_store. unfold_m.
  destruct db as [c t d af fs lg], t as [es ues us]; simpl.
  destruct af, fs as [|[] [|[] [|[] fs]]]; simpl.
  all: try done.
  all: rewrite ?(without_events_cons event d es).
  all: solve_nothing_added.
Qed.

Lemma new_Event_id (kw : gmap string PyVal) (n : Z) (e : Event.t) :
  new_Event kw n = Some e → Event.id e = n.
Proof.
  unfold new_Event. intros E.
  destruct (kw !! "owner_id") as [[]|]; simpl in E;
    repeat (match type of E with
            | context [?o ≫= _] => destruct o; simpl in E
            end); by simplify_eq.
Qed.

Lemma unique_ids_sublist (l k : list Event.t) :
  l `sublist_of` k → NoDup (Event.id <$> k) → NoDup (Event.id <$> l).
Proof.
  intros Hsub Hk.
  apply (sublist_NoDup _ (Event.id <$> k)); [exact Hk|by apply fmap_sublist].
Qed.

Lemma unique_nothing_added (db db' : Session) :
  nothing_added db db' → unique_session db → unique_session db'.
Proof.
  unfold unique_session, unique_ids. intros [Hc [Hsub|Ht]] [Htxn Hcom].
  - rewrite Hc. split; [|done]. by eapply unique_ids_sublist.
  - by rewrite Ht, Hc.
Qed.

Lemma unique_same (db db' : Session) :
  committed db' = committed db → txn db' = txn db →
  unique_session db → unique_session db'.
Proof. unfold unique_session. by intros -> ->. Qed.

Lemma unique_flushed (db : Session) :
  unique_ids (txn db) → unique_ids (flushed db).
Proof.
  unfold unique_ids, flushed, without_events. simpl.
  apply unique_ids_sublist, sublist_filter.
Qed.

Lemma primary_key_fresh (kw : gmap string PyVal) (rows : list Event.t) (n : Z) :
  primary_key kw rows = Some n → n ∉ Event.id <$> rows.
Proof.
  assert (next_id rows ∉ Event.id <$> rows) as Hnext.
  { intros (e & He & Hin%next_id_fresh)%list_elem_of_fmap. lia. }
  unfold primary_key. destruct (kw !! "id") as [[| m | |]|]; try done.
  - by intros [= <-].
  - case_decide; [done|]. by intros [= <-].
  - by intros [= <-].
Qed.

Lemma created_id_fresh (kw : gmap string PyVal) (rows : list Event.t) (e : Event.t) :
  (∃ id, primary_key kw rows = Some id ∧ new_Event kw id = Some e) →
  Event.id e ∉ Event.id <$> rows.
Proof.
  intros (id & Hkey%primary_key_fresh & ->%new_Event_id). done.
Qed.

Lemma unique_created (e : Event.t) (db : Session) :
  Event.id e ∉ Event.id <$> events (txn db) →
  unique_session db → unique_session (created e db).
Proof.
  intros Hid [Htxn _].
  assert (unique_ids (txn (created e db))) as H; [|by split].
  unfold unique_ids. simpl. rewrite fmap_app. apply NoDup_app. split_and!.
  - by apply unique_flushed in Htxn.
  - intros x (e' & -> & He')%list_elem_of_fmap.
    apply elem_of_without_events in He'.
    intros Hin. change (Event.id <$> [e]) with [Event.id e] in Hin.
    apply list_elem_of_singleton in Hin. apply Hid.
    apply list_elem_of_fmap. by exists e'.
  - apply NoDup_singleton.
Qed.

Lemma unique_updated (event_id : Z) (f : Event.t → Event.t) (db db' : Session) :
  (∀ e, Event.id (f e) = Event.id e) →
  events (committed db') = updated_events event_id f db →
  events (txn db') = updated_events event_id f db →
  unique_session db → unique_session db'.
Proof.
  intros Hf Hc Ht [Htxn _].
  assert (NoDup (Event.id <$> updated_events event_id f db)) as H.
  { unfold updated_events. rewrite <- list_fmap_compose.
    erewrite list_fmap_ext; [by apply unique_flushed in Htxn|].
    intros i e _. simpl. by case_decide. }
  unfold unique_session, unique_ids. by rewrite Hc, Ht.
Qed.

Lemma unique_removed (event_id : Z) (fs : list bool) (db : Session) :
  unique_session db →
  unique_session
    (let T := event_removed event_id (flushed db) in
     mk_Session T T [] (autoflush db) fs (log db)).
Proof.
  intros [Htxn _].
  assert (unique_ids (event_removed event_id (flushed db))) as H; [|by split].
  apply unique_flushed in Htxn. revert Htxn.
  unfold unique_ids, event_removed. cbn [events].
  apply unique_ids_sublist, sublist_filter.
Qed.

Lemma unique_rollback (db : Session) :
  unique_session db → unique_session (rollback db).
Proof. by intros [_ ?]. Qed.

Lemma create_event_unique (title start end_ owner_id content location : PyVal)
    (db : Session) :
  unique_session db →
  unique_session (create_event title start end_ owner_id content location db).2.
Proof.
  intros Hu. unfold create_event. set (kw := <["title" := _]> _).
  pose proof (create_pair_spec kw owner_id db eq_refl) as H.
  destruct (bind _ _ db) as [[e|x] db']; simpl.
  - destruct H as [Hnew%created_id_fresh ->]. by apply unique_created.
  - destruct x;
      first [ by subst db'
            | destruct H as [_ ->]; by apply unique_rollback ].
Qed.

Lemma add_new_event_unique (values : gmap string PyVal) (db : Session) :
  unique_session db → unique_session (add_new_event values db).2.
Proof.
  intros Hu. unfold add_new_event, getitem.
  destruct (values !! "start") as [start|]; unfold_m; [|done].
  destruct (values !! "end") as [end_|]; [|done].
  assert (∃ b, check_date_validation start end_ = Ok b) as [b ->].
  { unfold check_date_validation.
    destruct (py_lt start end_) as [b|e] eqn:E; [by eexists|].
    unfold py_lt in E. repeat case_match; simplify_eq; by eexists. }
  destruct b; simpl; [|done].
  pose proof (create_model_Event_spec values db) as H.
  destruct (create_model_Event values db) as [[e|x] db1].
  - destruct H as (Hnew%created_id_fresh & -> & ->). simpl.
    unfold create_model_UserEvent; simpl. unfold_m; unfold_store; simpl.
    rewrite without_events_nil.
    by apply (unique_created e db).
  - destruct x; simpl;
      first [ by subst db1
            | destruct H as [_ ->]; by apply unique_rollback ].
Qed.

Lemma update_event_unique (event_id : Z) (event : gmap string PyVal) (db : Session) :
  unique_session db → unique_session (update_event event_id event db).2.
Proof.
  intros Hu.
  destruct (decide (get_items_that_can_be_updated event = ∅)) as [He|Hne].
  { unfold update_event. by rewrite bool_decide_eq_true_2 by done. }
  pose proof (get_event_or_http_error_spec event_id db) as Hget.
  destruct (get_event_by_id event_id db) as [[old_event|x] db1] eqn:Eg.
  2:{ destruct Hget as ((code & detail & Hget) & ? & ? & ? & ?).
      unfold update_event. rewrite bool_decide_eq_false_2 by done.
      unfold bind at 1. rewrite Hget. by apply (unique_same db). }
  destruct Hget as ([= ->] & _). rename Eg into Hget.
  destruct (decide (is_it_possible_to_change_dates old_event
                      (get_items_that_can_be_updated event) = Ok true))
    as [Hok|Hbad].
  2:{ by rewrite (update_event_rejects _ _ _ _ Hget Hne Hbad). }
  rewrite (update_event_valid _ _ _ _ Hget Hne Hok).
  pose proof (persist_update_spec event_id
                (get_items_that_can_be_updated event) db) as Hspec.
  pose proof (persist_update_nothing_added event_id
                (get_items_that_can_be_updated event) db) as Hfail.
  destruct (persist_update _ _ db) as [[[]|x] db'].
  - destruct Hspec as (f & fs & Ea & ->).
    { intros f e. apply assignments_keep_keys. }
    match goal with
    | |- context [get_event_by_id event_id ?s] =>
        pose proof (get_event_by_id_tables event_id s) as (Hc & Ht & _);
        destruct (get_event_by_id event_id s) as [[]?]
    end; simpl in *.
    all: apply (unique_updated event_id f db); [|by rewrite Hc|by rewrite Ht|done];
      intros e'; by eapply assignments_keep_keys.
  - destruct Hspec as [-> _].
    { intros f e. apply assignments_keep_keys. }
    by apply (unique_nothing_added db).
Qed.

Lemma delete_event_unique (event_id : Z) (db : Session) :
  unique_session db → unique_session (delete_event event_id db).2.
Proof.
  intros Hu.
  pose proof (get_event_or_http_error_spec event_id db) as Hget.
  unfold delete_event, bind.
  destruct (get_event_by_id event_id db) as [[event|x] db1].
  - destruct Hget as (_ & -> & <- & _).
    pose proof (delete_rows_spec event db) as Hrows.
    pose proof (delete_rows_nothing_added event (Event.id event) db) as Hfail.
    destruct (delete_rows _ _ db) as [[[n i s|u s]|e] db']; [| |done]; simpl.
    + by apply (unique_nothing_added db).
    + destruct Hrows as (_ & _ & fs & ->). by apply unique_removed.
  - destruct Hget as ((code & detail & ->) & ? & ? & ? & ?).
    by apply (unique_same db).
Qed.

Lemma run_unique (c : Call) (db : Session) :
  unique_session db → unique_session (run c db).
Proof.
  destruct c; simpl.
  - apply create_event_unique.
  - apply add_new_event_unique.
  - apply update_event_unique.
  - apply delete_event_unique.
  - done.
Qed.

Lemma reachable_unique_session (db : Session) :
  reachable db → unique_session db.
Proof.
  induction 1 as [us af fs|db db' _ IH Hstep].
  - split; apply NoDup_nil_2.
  - destruct Hstep as [c db|fs db|db|af fs db].
    + by apply run_unique.
    + done.
    + by apply unique_rollback.
    + destruct IH as [_ ?]. by split.
Qed.

Lemma unique_ids_filter (t : Tables) (event_id : Z) :
  unique_ids t →
  (length (filter (λ e, Event.id e = event_id) (events t)) ≤ 1)%nat.
Proof.
  unfold unique_ids. induction (events t) as [|a l IH]; [simpl; lia|].
  rewrite fmap_cons, NoDup_cons. intros [Hnotin Hl].
  rewrite filter_cons. case_decide as Ha; [|auto].
  rewrite filter_none; [simpl; lia|].
  intros x Hx Hid. apply Hnotin. apply list_elem_of_fmap.
  exists x. split; [congruence|done].
Qed.

Lemma get_event_or_http_error_unique (event_id : Z) (db : Session) :
  unique_ids (txn db) →
  (∃ event, get_event_by_id event_id db = (Ok event, db)
            ∧ get_event_or_http_error event_id db = (Ok event, db))
  ∨ ((∃ msg, get_event_by_id event_id db = (Raise (NoResultFound msg), db))
     ∧ get_event_or_http_error event_id db
       = (Raise (HTTPException 404 "Event not found"), db)).
Proof.
  intros Hlen%(unique_ids_filter _ event_id).
  unfold get_event_or_http_error, get_event_by_id.
  destruct (filter _ _) as [|e [|e2 l]]; [|by left; eauto|simpl in Hlen; lia].
  right. split; [by eexists|done].
Qed.

(** X15: from empty tables, whatever calls were made and whatever
    failed, no two events ever share an id, in the committed tables or
    in the transaction; hence [get_event_by_id] never raises
    MultipleResultsFound, and [update_event], [delete_event] and
    [eventview] never answer 500 for an ambiguous id. *)
Theorem reachable_ids_unique (db : Session) :
  reachable db →
  unique_ids (committed db) ∧ unique_ids (txn db)
  ∧ ∀ event_id,
      (∀ msg, (get_event_by_id event_id db).1 ≠ Raise (MultipleResultsFound msg))
      ∧ (∀ event detail,
           (update_event event_id event db).1 ≠ Raise (HTTPException 500 detail))
      ∧ (∀ detail,
           (delete_event event_id db).1 ≠ Raise (HTTPException 500 detail))
      ∧ (∀ detail,
           (eventview event_id db).1 ≠ Raise (HTTPException 500 detail)).
Proof.
  intros [Htxn Hcom]%reachable_unique_session. split_and!; [done|done|].
  intros event_id.
  destruct (get_event_or_http_error_unique event_id db Htxn)
    as [(old_event & Hget & Hhttp)|[[msg0 Hget] Hhttp]].
  - split_and!.
    + by rewrite Hget.
    + intros event detail.
      destruct (decide (get_items_that_can_be_updated event = ∅)) as [He|Hne].
      { unfold update_event. by rewrite bool_decide_eq_true_2 by done. }
      destruct (decide (is_it_possible_to_change_dates old_event
                          (get_items_that_can_be_updated event) = Ok true))
        as [Hok|Hbad].
      2:{ by rewrite (update_event_rejects _ _ _ _ Hget Hne Hbad). }
      rewrite (update_event_valid _ _ _ _ Hget Hne Hok).
      pose proof (persist_update_spec event_id
                    (get_items_that_can_be_updated event) db) as Hspec.
      destruct (persist_update _ _ db) as [[[]|x] db'].
      * destruct (get_event_by_id event_id db') as [[e|x] db''] eqn:Eg; [done|].
        apply get_event_by_id_raises in Eg as [m ->]. done.
      * destruct Hspec as [-> _]; [|done].
        intros f e. apply assignments_keep_keys.
    + intros detail. unfold delete_event, bind. rewrite Hhttp.
      pose proof (delete_rows_spec old_event db) as Hrows.
      pose proof (get_event_by_id_Ok _ _ _ _ Hget) as [_ Hf].
      assert (Event.id old_event = event_id) as Hid.
      { apply head_Some_elem_of in Hf.
        by apply list_elem_of_filter in Hf as [? _]. }
      rewrite Hid in Hrows.
      by destruct (delete_rows _ _ db) as [[|] ?].
    + intros detail. unfold eventview, bind. by rewrite Hhttp.
  - split_and!.
    + by rewrite Hget.
    + intros event detail. unfold update_event.
      case_bool_decide; [done|]. unfold bind at 1. by rewrite Hhttp.
    + intros detail. unfold delete_event, bind. by rewrite Hhttp.
    + intros detail. unfold eventview, bind. by rewrite Hhttp.
Qed.

(** ** The date check is a strict order *)

Lemma tuple_cmp_refl (a : list Z) : tuple_cmp a a = Eq.
Proof. induction a as [|x a IH]; [done|]. simpl. by rewrite Z.compare_refl. Qed.

Lemma tuple_cmp_lt_trans (a b c : list Z) :
  tuple_cmp a b = Lt → tuple_cmp b c = Lt → tuple_cmp a c = Lt.
Proof.
  revert b c; induction a as [|x a IH]; intros [|y b] [|z c]; simpl; try done.
  destruct (Z.compare_spec x y) as [->|Hxy|Hxy]; [| |done].
  - destruct (Z.compare_spec y z) as [->|Hyz|Hyz]; [apply IH|done|done].
  - intros _.
    destruct (Z.compare_spec y z) as [->|Hyz|Hyz]; [| |done]; intros _.
    + by rewrite (proj2 (Z.compare_lt_iff x z)).
    + rewrite (proj2 (Z.compare_lt_iff x z)); [done | lia].
Qed.

Lemma datetime_lt_irrefl (a : datetime) : datetime_lt a a = false.
Proof. unfold datetime_lt, datetime_cmp. by rewrite tuple_cmp_refl. Qed.

Lemma datetime_lt_trans (a b c : datetime) :
  datetime_lt a b = true → datetime_lt b c = true → datetime_lt a c = true.
Proof.
  unfold datetime_lt, datetime_cmp. intros Hab Hbc.
  rewrite (tuple_cmp_lt_trans (astuple a) (astuple b) (astuple c)); [done| |].
  - by destruct (tuple_cmp (astuple a) (astuple b)).
  - by destruct (tuple_cmp (astuple b) (astuple c)).
Qed.

Lemma string_compare_refl (s : string) : String.compare s s = Eq.
Proof.
  induction s as [|x s IH]; [done|]. simpl.
  unfold Ascii.compare. by rewrite N.compare_refl.
Qed.

Lemma string_compare_lt_trans (a b c : string) :
  String.compare a b = Lt → String.compare b c = Lt → String.compare a c = Lt.
Proof.
  revert b c; induction a as [|x a IH]; intros [|y b] [|z c]; simpl; try done.
  destruct (Ascii.compare x y) eqn:Exy; [| |done].
  - apply Ascii.compare_eq_iff in Exy as ->.
    destruct (Ascii.compare y z); [apply IH|done|done].
  - intros _. destruct (Ascii.compare y z) eqn:Eyz; [| |done]; intros _.
    + apply Ascii.compare_eq_iff in Eyz as <-. by rewrite Exy.
    + unfold Ascii.compare in *.
      rewrite N.compare_lt_iff in Exy, Eyz.
      rewrite (proj2 (N.compare_lt_iff _ _)); [done|lia].
Qed.

Lemma string_ltb_irrefl (s : string) : String.ltb s s = false.
Proof. unfold String.ltb. by rewrite string_compare_refl. Qed.

Lemma string_ltb_asym (a b : string) :
  String.ltb a b = true → String.ltb b a = false.
Proof.
  unfold String.ltb. rewrite (String.compare_antisym b a).
  by destruct (String.compare a b).
Qed.

Lemma string_ltb_trans (a b c : string) :
  String.ltb a b = true → String.ltb b c = true → String.ltb a c = true.
Proof.
  unfold String.ltb. intros Hab Hbc.
  rewrite (string_compare_lt_trans a b c); [done| |].
  - by destruct (String.compare a b).
  - by destruct (String.compare b c).
Qed.

Lemma check_date_validation_true (a b : PyVal) :
  check_date_validation a b = Ok true ↔ py_lt a b = Ok true.
Proof.
  unfold check_date_validation.
  destruct (py_lt a b) as [[]|[]] eqn:E; split; try done.
Qed.

(** X16: [check_date_validation] is a strict order on the values it is
    given, whatever their types: nothing is before itself, so an event
    that would start and end at the same instant is refused; if [a] is
    before [b] then [b] is not before [a]; and before is transitive. *)
Theorem check_date_validation_strict_order :
  (∀ a, check_date_validation a a = Ok false)
  ∧ (∀ a b, check_date_validation a b = Ok true →
            check_date_validation b a = Ok false)
  ∧ (∀ a b c, check_date_validation a b = Ok true →
              check_date_validation b c = Ok true →
              check_date_validation a c = Ok true).
Proof.
  split_and!.
  - intros [| n | s | d]; unfold check_date_validation; simpl; [done| | |].
    + by rewrite Z.ltb_irrefl.
    + by rewrite string_ltb_irrefl.
    + by rewrite datetime_lt_irrefl.
  - intros a b. unfold check_date_validation.
    destruct a, b; simpl; try done; intros [= H].
    + f_equal. apply Z.ltb_lt in H. apply Z.ltb_ge. lia.
    + by rewrite string_ltb_asym.
    + by rewrite datetime_lt_asym.
  - intros a b c. rewrite !check_date_validation_true.
    destruct a, b; simpl; try done; destruct c; simpl; try done;
      intros [= Hab] [= Hbc]; f_equal.
    + apply Z.ltb_lt in Hab, Hbc. apply Z.ltb_lt. lia.
    + by apply (string_ltb_trans _ s0).
    + by apply (datetime_lt_trans _ d0).
Qed.

(** ** Sorting keeps ties in order *)

Section stability.
Context {A : Type} (key : A → datetime).

Lemma insert_by_filter (d : datetime) (x : A) (l : list A) :
  filter (λ a, key a = d) (insert_by key x l)
  = filter (λ a, key a = d) (x :: l).
Proof.
  induction l as [|y l IH]; [done|]. simpl.
  destruct (datetime_lt (key y) (key x)) eqn:E; [|done].
  rewrite (filter_cons _ y (insert_by key x l)), IH.
  rewrite !(filter_cons _ x), !(filter_cons _ y).
  destruct (decide (key y = d)) as [Hy|Hy]; [|done].
  destruct (decide (key x = d)) as [Hx|Hx]; [|done].
  rewrite Hy, Hx, datetime_lt_irrefl in E. done.
Qed.

Lemma sorted_filter (d : datetime) (l : list A) :
  filter (λ a, key a = d) (sorted key l) = filter (λ a, key a = d) l.
Proof.
  induction l as [|x l IH]; [done|].
  change (sorted key (x :: l)) with (insert_by key x (sorted key l)).
  by rewrite insert_by_filter, !filter_cons, IH.
Qed.

Lemma sorted_fixpoint (l : list A) :
  StronglySorted (key_le key) l → sorted key l = l.
Proof.
  induction 1 as [|x l Hl IH Hx]; [done|].
  change (sorted key (x :: l)) with (insert_by key x (sorted key l)).
  rewrite IH. destruct l as [|y l]; [done|]. simpl.
  apply Forall_cons in Hx as [Hxy _]. unfold key_le in Hxy. by rewrite Hxy.
Qed.

End stability.

Lemma sort_by_date_returns (h : Heap) (events : nat) (items : list Event.t) :
  h !! events = Some items →
  ∃ out h', sort_by_date events h = Some (out, h')
            ∧ h' !! out = Some (sorted Event.start items).
Proof.
  intros Hitems. unfold sort_by_date. rewrite Hitems.
  cbn [mbind option_bind].
  destruct (alloc items h) as [temp h1] eqn:E1.
  destruct (alloc_spec _ _ _ _ E1) as (_ & Hnew1 & _).
  rewrite Hnew1. cbn [mbind option_bind].
  destruct (alloc (sorted Event.start items) h1) as [out h'] eqn:E2.
  destruct (alloc_spec _ _ _ _ E2) as (_ & Hnew2 & _).
  by exists out, h'.
Qed.

(** X17: [sort_by_date] is stable: the events that start at one and the
    same instant come out in the order in which they were given. *)
Theorem sort_by_date_stable (h : Heap) (events : nat) (items : list Event.t) :
  h !! events = Some items →
  ∃ out h' result,
    sort_by_date events h = Some (out, h')
    ∧ h' !! out = Some result
    ∧ ∀ d, filter (λ e, Event.start e = d) result
           = filter (λ e, Event.start e = d) items.
Proof.
  intros (out & h' & Hsort & Hout)%sort_by_date_returns.
  exists out, h', (sorted Event.start items). split_and!; [done|done|].
  intros d. apply sorted_filter.
Qed.

(** X18: a list whose starts are already in order comes back as it is,
    element for element, in the new list [sort_by_date] returns. *)
Theorem sort_by_date_of_sorted (h : Heap) (events : nat) (items : list Event.t) :
  h !! events = Some items →
  StronglySorted start_le items →
  ∃ out h', sort_by_date events h = Some (out, h') ∧ h' !! out = Some items.
Proof.
  intros (out & h' & Hsort & Hout)%sort_by_date_returns Hsorted.
  exists out, h'. split; [done|].
  rewrite Hout. f_equal. by apply sorted_fixpoint.
Qed.

(** ** The form handler *)

Lemma first_user_id (id : Z) (db : Session) (user : User.t) :
  first_user id db = Some user → User.id user = id.
Proof.
  unfold first_user. destruct (filter _ _) as [|u l] eqn:E; [done|].
  intros [= ->].
  assert (user ∈ filter (λ u, User.id u = id) (users (txn db))) as Hin
    by (rewrite E; by left).
  by apply list_elem_of_filter in Hin as [? _].
Qed.

(** X19: when user 1 exists and the form lacks one of the eight fields
    the handler reads, [create_new_event] raises and the session is as
    it was: the exception is the [KeyError] of a missing field, or what
    [strptime] raised on a date that came before it. *)
Theorem create_new_event_missing_field
    (strptime : string → string → Outcome datetime)
    (create_user : string → string → string → M User.t)
    (validate_zoom_link : string → M unit)
    (db : Session) (data : gmap string string) (user : User.t) :
  first_user 1 db = Some user →
  (∃ key, key ∈ form_fields ∧ data !! key = None) →
  ∃ x, create_new_event strptime create_user validate_zoom_link data db
       = (Raise x, db)
       ∧ ((∃ key, x = KeyError key ∧ key ∈ form_fields ∧ data !! key = None)
          ∨ ∃ text format, strptime text format = Raise x).
Proof.
  intros Hu (key & Hin & Hnone).
  unfold create_new_event, form_get, bind, lift.
  destruct (data !! "title") as [title|] eqn:H1;
    [|eexists; split; [done|left; eexists; split_and!; [done| |done]];
      repeat constructor].
  destruct (data !! "description") as [content|] eqn:H2;
    [|eexists; split; [done|left; eexists; split_and!; [done| |done]];
      repeat constructor].
  destruct (data !! "start_date") as [start_date|] eqn:H3;
    [|eexists; split; [done|left; eexists; split_and!; [done| |done]];
      repeat constructor].
  destruct (data !! "start_time") as [start_time|] eqn:H4;
    [|eexists; split; [done|left; eexists; split_and!; [done| |done]];
      repeat constructor].
  destruct (strptime (start_date +:+ " " +:+ start_time) _) as [start|x] eqn:Es;
    [|eexists; split; [done|right; eauto]].
  destruct (data !! "end_date") as [end_date|] eqn:H5;
    [|eexists; split; [done|left; eexists; split_and!; [done| |done]];
      repeat constructor].
  destruct (data !! "end_time") as [end_time|] eqn:H6;
    [|eexists; split; [done|left; eexists; split_and!; [done| |done]];
      repeat constructor].
  destruct (strptime (end_date +:+ " " +:+ end_time) _) as [end_|x] eqn:Ee;
    [|eexists; split; [done|right; eauto]].
  rewrite Hu.
  destruct (data !! "location_type") as [location_type|] eqn:H7;
    [|eexists; split; [done|left; eexists; split_and!; [done| |done]];
      repeat constructor].
  destruct (data !! "location") as [location|] eqn:H8;
    [|eexists; split; [done|left; eexists; split_and!; [done| |done]];
      repeat constructor].
  unfold form_fields in Hin. rewrite !elem_of_cons, elem_of_nil in Hin.
  destruct Hin as [->|[->|[->|[->|[->|[->|[->|[->|[]]]]]]]]]; congruence.
Qed.

(** X20: when user 1 exists, the form has its eight fields, both dates
    parse, and the location is no Zoom link or the link is accepted,
    [create_new_event] creates the event with user 1 as owner and the
    description as content, whatever the order of the two dates, and
    redirects with status 302 to the path under which [eventview] then
    shows that event. *)
Theorem create_new_event_redirects
    (strptime : string → string → Outcome datetime)
    (create_user : string → string → string → M User.t)
    (validate_zoom_link : string → M unit)
    (db : Session) (data : gmap string string) (user : User.t)
    (title content start_date start_time end_date end_time : string)
    (location_type location : string) (start end_ : datetime) :
  data !! "title" = Some title →
  data !! "description" = Some content →
  data !! "start_date" = Some start_date →
  data !! "start_time" = Some start_time →
  data !! "end_date" = Some end_date →
  data !! "end_time" = Some end_time →
  data !! "location_type" = Some location_type →
  data !! "location" = Some location →
  strptime (start_date +:+ " " +:+ start_time) "%Y-%m-%d %H:%M" = Ok start →
  strptime (end_date +:+ " " +:+ end_time) "%Y-%m-%d %H:%M" = Ok end_ →
  first_user 1 db = Some user →
  (location_type = "vc_url" → validate_zoom_link location db = (Ok tt, db)) →
  ∃ event db',
    create_new_event strptime create_user validate_zoom_link data db
    = (Ok (RedirectResponse ("/event/" +:+ pretty (Event.id event)) 302), db')
    ∧ event = Event.mk (next_id (events (txn db))) title start end_
                (Some content) (Some location) 1
    ∧ db' = created event db
    ∧ ∃ page, eventview (Event.id event) db' = (Ok page, db')
              ∧ page_event page = event.
Proof.
  intros H1 H2 H3 H4 H5 H6 H7 H8 Hs He Hu Hzoom.
  pose proof (first_user_id _ _ _ Hu) as Hid.
  pose proof (create_event_typed db title start end_ 1 (Some content)
                (Some location)) as Hc.
  cbn [optional] in Hc. cbv zeta in Hc.
  set (event := Event.mk _ _ _ _ _ _ _) in *.
  assert (Event.id event = next_id (events (txn db))) as Hnew by done.
  exists event, (created event db). split_and!; [|done|done|].
  - unfold create_new_event, form_get, bind, lift.
    rewrite H1, H2, H3, H4, Hs, H5, H6, He, Hu, H7, H8, Hid.
    case_bool_decide as Hz.
    + rewrite (Hzoom Hz). by rewrite Hc.
    + unfold ret at 1. by rewrite Hc.
  - unfold eventview, bind, get_event_or_http_error.
    rewrite get_event_by_id_created by done. unfold ret.
    eexists. split; reflexivity.
Qed.

(** ** Sending an update twice *)

Lemma assigned_twice {A} (read : PyVal → option A) (given : option PyVal)
    (a b c : A) :
  assigned read given a b → assigned read given b c → c = b.
Proof. unfold assigned. destruct given; congruence. Qed.

Lemma assignments_idemp (event : gmap string PyVal) (f : Event.t → Event.t)
    (e : Event.t) :
  assignments (get_items_that_can_be_updated event) = Some f →
  f (f e) = f e.
Proof.
  intros Ea.
  destruct (assignments_keep_keys event f (f e) Ea) as [Hid Hown].
  destruct (assignments_fields event f e Ea) as (Ht & Hs & He & Hc & Hl).
  destruct (assignments_fields event f (f e) Ea)
    as (Ht' & Hs' & He' & Hc' & Hl').
  pose proof (assigned_twice _ _ _ _ _ Ht Ht').
  pose proof (assigned_twice _ _ _ _ _ Hs Hs').
  pose proof (assigned_twice _ _ _ _ _ He He').
  pose proof (assigned_twice _ _ _ _ _ Hc Hc').
  pose proof (assigned_twice _ _ _ _ _ Hl Hl').
  destruct (f (f e)), (f e); simpl in *; congruence.
Qed.

(** X21: sending the same update a second time changes nothing: when
    both calls return an event, the second returns the event the first
    returned, and the committed tables are those the first call left. *)
Theorem update_event_twice (db db1 db2 : Session) (event_id : Z)
    (event : gmap string PyVal) (first second : Event.t) :
  update_event event_id event db = (Ok (Some first), db1) →
  update_event event_id event db1 = (Ok (Some second), db2) →
  second = first ∧ committed db2 = committed db1.
Proof.
  intros (old & f & fs & Hget & Hid & Ea & _ & -> & -> & Hback)
    %update_event_Some.
  intros (old' & f' & fs' & Hget' & _ & Ea' & _ & -> & -> & _)
    %update_event_Some.
  rewrite Hback in Hget'. injection Hget' as <-.
  rewrite Ea in Ea'. injection Ea' as <-.
  split; [by eapply assignments_idemp|].
  simpl. f_equal. unfold updated_events. simpl.
  rewrite without_events_nil, <- list_fmap_compose.
  apply list_fmap_ext. intros i e _. simpl.
  destruct (assignments_keep_keys event f e Ea) as [Hfid _].
  destruct (decide (Event.id e = event_id)) as [He|He].
  - rewrite decide_True by congruence. by eapply assignments_idemp.
  - by rewrite decide_False.
Qed.

(** ** The further theorems at concrete inputs *)

Lemma eventview_outcomes_witness :
  representable 1
  ∧ ∃ page, eventview 1 example_session = (Ok page, example_session)
            ∧ page_event page = standup
            ∧ template page = "event/eventview.html".
Proof.
  assert (representable 1) as Hr by (unfold representable; lia).
  split; [exact Hr|].
  exact (proj1 (eventview_outcomes example_session 1 Hr)).
Defined.

Lemma eventview_formats_witness :
  eventview 1 example_session
  = (Ok (mk_EventPage "event/eventview.html" standup "%A, %d/%m/%Y %H:%M"
           "%H:%M"), example_session)
  ∧ Event.id standup = 1
  ∧ standup ∈ events (txn example_session).
Proof.
  assert (eventview 1 example_session
          = (Ok (mk_EventPage "event/eventview.html" standup
                   "%A, %d/%m/%Y %H:%M" "%H:%M"), example_session)) as H
    by reflexivity.
  split; [exact H|].
  destruct (eventview_formats _ _ _ _ H) as (Hid & Hin & _).
  exact (conj Hid Hin).
Defined.

Lemma update_event_lookup_errors_witness :
  representable 7
  ∧ get_items_that_can_be_updated {["title" := VStr "retro"]} ≠ ∅
  ∧ update_event 7 {["title" := VStr "retro"]} example_session
    = (Raise (HTTPException 404 "Event not found"), example_session).
Proof.
  assert (representable 7) as Hr by (unfold representable; lia).
  assert (get_items_that_can_be_updated {["title" := VStr "retro"]} ≠ ∅) as H.
  { intros H. apply (f_equal (lookup "title")) in H. vm_compute in H.
    discriminate. }
  split; [exact Hr|]. split; [exact H|].
  exact (update_event_lookup_errors example_session 7 _ Hr H).
Defined.

Lemma update_event_unordered_stored_dates_witness :
  get_event_by_id 2 late_session = (Ok late, late_session)
  ∧ update_event 2 {["title" := VStr "on time"]} late_session
    = (Ok None, late_session).
Proof.
  split; [reflexivity|].
  apply (update_event_unordered_stored_dates late_session 2 _ late);
    reflexivity.
Defined.

Lemma update_event_returns_assigned_event_witness :
  update_event 1 {["title" := VStr "retro"]} example_session
  = (Ok (Some retro), retitled_session)
  ∧ ∃ old_event,
      get_event_by_id 1 example_session = (Ok old_event, example_session)
      ∧ Event.id retro = 1
      ∧ Event.owner_id retro = Event.owner_id old_event.
Proof.
  assert (update_event 1 {["title" := VStr "retro"]} example_session
          = (Ok (Some retro), retitled_session)) as H by reflexivity.
  split; [exact H|].
  destruct (update_event_returns_assigned_event _ _ _ _ _ H)
    as (old_event & Hget & Hid & Hown & _).
  exists old_event. exact (conj Hget (conj Hid Hown)).
Defined.

Lemma update_event_frame_witness :
  clean example_session
  ∧ user_events (committed retitled_session)
    = user_events (committed example_session).
Proof.
  assert (clean example_session) as H by (split; reflexivity).
  split; [exact H|].
  exact (proj1 (update_event_frame example_session 1
                  {["title" := VStr "retro"]} H)).
Defined.

Lemma delete_event_then_not_found_witness :
  delete_event 1 example_session
  = (Ok (RedirectResponse "/calendar" 200), run (DeleteEvent 1) example_session)
  ∧ get_participants_emails_by_event 1 (run (DeleteEvent 1) example_session)
    = [].
Proof.
  assert (delete_event 1 example_session
          = (Ok (RedirectResponse "/calendar" 200),
             run (DeleteEvent 1) example_session)) as H by reflexivity.
  split; [exact H|].
  exact (proj1 (proj2 (delete_event_then_not_found _ _ _ _ _ H))).
Defined.

Lemma delete_event_frame_witness :
  clean late_session
  ∧ delete_event 2 late_session
    = (Ok (RedirectResponse "/calendar" 200), run (DeleteEvent 2) late_session)
  ∧ get_participants_emails_by_event 1 (run (DeleteEvent 2) late_session)
    = get_participants_emails_by_event 1 late_session.
Proof.
  assert (clean late_session) as H by (split; reflexivity).
  assert (delete_event 2 late_session
          = (Ok (RedirectResponse "/calendar" 200),
             run (DeleteEvent 2) late_session)) as Hdel by reflexivity.
  assert (1 ≠ 2) as Hne by lia.
  split; [exact H|]. split; [exact Hdel|].
  exact (proj1 (proj2 (delete_event_frame _ _ _ 1 _ _ H Hne Hdel))).
Defined.

Lemma create_then_delete_restores_witness :
  clean example_session
  ∧ create_event (VStr "late") (VDatetime ten) (VDatetime nine) (VInt 1)
      (optional (Some "agenda")) (optional (Some "room 1")) example_session
    = (Ok late, late_session)
  ∧ delete_event (Event.id late) late_session
    = (Ok (RedirectResponse "/calendar" 200), run (DeleteEvent 2) late_session)
  ∧ committed (run (DeleteEvent 2) late_session) = committed example_session.
Proof.
  assert (clean example_session) as H by (split; reflexivity).
  assert (create_event (VStr "late") (VDatetime ten) (VDatetime nine) (VInt 1)
            (optional (Some "agenda")) (optional (Some "room 1"))
            example_session
          = (Ok late, late_session)) as Hcreate by reflexivity.
  assert (delete_event (Event.id late) late_session
          = (Ok (RedirectResponse "/calendar" 200),
             run (DeleteEvent 2) late_session)) as Hdel by reflexivity.
  split; [exact H|]. split; [exact Hcreate|]. split; [exact Hdel|].
  refine (proj1 (create_then_delete_restores _ _ _ _ _ _ _ _ _ _ _ _
                   H _ Hcreate Hdel)).
  intros ue Hue. vm_compute in Hue.
  inversion Hue as [|? ? ? Hnil]; [vm_compute; discriminate|inversion Hnil].
Defined.

Lemma add_new_event_agrees_with_create_event_witness :
  datetime_lt ten eleven = true
  ∧ ∃ event db',
      create_event (VStr "review") (VDatetime ten) (VDatetime eleven) (VInt 1)
        (optional None) (optional (Some "room 1")) example_session
      = (Ok event, db')
      ∧ add_new_event review_values example_session = (Ok (Some event), db').
Proof.
  split; [reflexivity|].
  apply (add_new_event_agrees_with_create_event example_session review_values
           "review" ten eleven 1 None (Some "room 1")); try reflexivity.
  unfold review_values.
  repeat (apply map_Forall_insert_2; [repeat constructor|]).
  apply map_Forall_empty.
Defined.

Lemma add_new_event_missing_date_key_witness :
  ({["title" := VStr "review"]} : gmap string PyVal) !! "start" = None
  ∧ ∃ key, (key = "start" ∨ key = "end")
           ∧ ({["title" := VStr "review"]} : gmap string PyVal) !! key = None
           ∧ add_new_event {["title" := VStr "review"]} example_session
             = (Raise (KeyError key), example_session).
Proof.
  split; [reflexivity|].
  apply (add_new_event_missing_date_key example_session).
  left. reflexivity.
Defined.

Lemma add_new_event_unknown_key_witness :
  check_date_validation (VDatetime nine) (VDatetime ten) = Ok true
  ∧ add_new_event
      (<["start" := VDatetime nine]> (<["end" := VDatetime ten]>
         {["colour" := VStr "red"]}))
      example_session
    = (Ok None, add_log (Exception TypeError) example_session).
Proof.
  split; [reflexivity|].
  apply (add_new_event_unknown_key example_session _ (VDatetime nine)
           (VDatetime ten) "colour" (VStr "red")); try reflexivity.
  vm_compute. intros H. repeat (inversion H as [|? ? ? H']; clear H; rename H' into H).
Defined.

Lemma reachable_ids_unique_witness :
  reachable late_session ∧ unique_ids (committed late_session).
Proof.
  assert (reachable late_session) as H.
  { apply (reachable_step example_session); [|apply step_call].
    apply (reachable_step empty_session); [apply reachable_init|].
    apply step_call. }
  split; [exact H|].
  exact (proj1 (reachable_ids_unique late_session H)).
Defined.

Lemma sort_by_date_stable_witness :
  example_heap !! 0%nat
  = Some [Event.mk 2 "review" eleven eleven None None 1; standup]
  ∧ ∃ out h' result,
      sort_by_date 0%nat example_heap = Some (out, h')
      ∧ h' !! out = Some result
      ∧ ∀ d, filter (λ e, Event.start e = d) result
             = filter (λ e, Event.start e = d)
                 [Event.mk 2 "review" eleven eleven None None 1; standup].
Proof.
  split; [reflexivity|].
  apply (sort_by_date_stable example_heap 0%nat). reflexivity.
Defined.

Lemma sort_by_date_of_sorted_witness :
  StronglySorted start_le
    [standup; Event.mk 2 "review" eleven eleven None None 1]
  ∧ ∃ out h',
      sort_by_date 0%nat sorted_heap = Some (out, h')
      ∧ h' !! out
        = Some [standup; Event.mk 2 "review" eleven eleven None None 1].
Proof.
  assert (StronglySorted start_le
            [standup; Event.mk 2 "review" eleven eleven None None 1]) as H
    by (repeat constructor).
  split; [exact H|].
  apply (sort_by_date_of_sorted sorted_heap 0%nat); [reflexivity|exact H].
Defined.

Lemma create_new_event_missing_field_witness :
  first_user 1 example_session = Some (User.mk 1 "e@mail.com")
  ∧ ∃ x, create_new_event example_strptime no_create_user accept_link
           {["title" := "late"]} example_session
         = (Raise x, example_session)
         ∧ ((∃ key, x = KeyError key ∧ key ∈ form_fields
                    ∧ ({["title" := "late"]} : gmap string string) !! key = None)
            ∨ ∃ text format, example_strptime text format = Raise x).
Proof.
  split; [reflexivity|].
  apply (create_new_event_missing_field example_strptime no_create_user
           accept_link example_session _ (User.mk 1 "e@mail.com"));
    [reflexivity|].
  exists "description". split; [|reflexivity].
  unfold form_fields. apply list_elem_of_further, list_elem_of_here.
Defined.

Lemma create_new_event_redirects_witness :
  first_user 1 example_session = Some (User.mk 1 "e@mail.com")
  ∧ datetime_lt ten nine = false
  ∧ ∃ event db',
      create_new_event example_strptime no_create_user accept_link
        example_form example_session
      = (Ok (RedirectResponse ("/event/" +:+ pretty (Event.id event)) 302), db')
      ∧ event = Event.mk (next_id (events (txn example_session))) "late" ten
                  nine (Some "agenda") (Some "room 1") 1
      ∧ db' = created event example_session
      ∧ ∃ page, eventview (Event.id event) db' = (Ok page, db')
                ∧ page_event page = event.
Proof.
  split; [reflexivity|]. split; [reflexivity|].
  apply (create_new_event_redirects example_strptime no_create_user
           accept_link example_session example_form (User.mk 1 "e@mail.com")
           "late" "agenda" "2024-01-01" "10:00" "2024-01-01" "09:00"
           "address" "room 1" ten nine); reflexivity.
Defined.

Lemma update_event_twice_witness :
  update_event 1 {["title" := VStr "retro"]} example_session
  = (Ok (Some retro), retitled_session)
  ∧ update_event 1 {["title" := VStr "retro"]} retitled_session
    = (Ok (Some retro), retitled_session)
  ∧ committed retitled_session = committed retitled_session.
Proof.
  assert (update_event 1 {["title" := VStr "retro"]} example_session
          = (Ok (Some retro), retitled_session)) as H1 by reflexivity.
  assert (update_event 1 {["title" := VStr "retro"]} retitled_session
          = (Ok (Some retro), retitled_session)) as H2 by reflexivity.
  split; [exact H1|]. split; [exact H2|].
  exact (proj2 (update_event_twice _ _ _ _ _ _ _ H1 H2)).
Defined.

(** A dictionary that names the id: the event is inserted under it,
    unless a stored event has it already, which the store refuses. *)
Example add_new_event_explicit_id :
  (add_new_event (<["id" := VInt 7]> review_values) example_session).1
  = Ok (Some (Event.mk 7 "review" ten eleven None (Some "room 1") 1)).
Proof. reflexivity. Qed.

Example add_new_event_taken_id :
  add_new_event (<["id" := VInt 1]> review_values) example_session
  = (Raise SQLAlchemyError, example_session).
Proof. reflexivity. Qed.

(** The form of the examples ends before it starts, and is taken. *)
Example create_new_event_example :
  (create_new_event example_strptime no_create_user accept_link example_form
     example_session).1
  = Ok (RedirectResponse "/event/2" 302).
Proof. reflexivity. Qed.

(** A Zoom link goes through the validator first. *)
Example create_new_event_zoom_rejected :
  create_new_event example_strptime no_create_user
    (λ _, raise (HTTPException 400 "VC type with no valid zoom link"))
    (<["location_type" := "vc_url"]> example_form) example_session
  = (Raise (HTTPException 400 "VC type with no valid zoom link"),
     example_session).
Proof. reflexivity. Qed.

(** A failed delete leaves the event committed, but the session that
    tried no longer sees it until it is rolled back. *)
Example delete_event_failed_statement :
  let db := (delete_event 1 (set_faults [false; true] example_session)).2 in
  standup ∈ events (committed db)
  ∧ (get_event_by_id 1 db).1
    = Raise (NoResultFound "Event ID does not exist. ID: 1")
  ∧ (get_event_by_id 1 (rollback db)).1 = Ok standup.
Proof. split_and!; [by left|reflexivity|reflexivity]. Qed.
